(** * SPI slave LED controller (spi_slave.c): a shallow embedding

    The module keeps two 32-byte frame buffers, four LED state cells and
    drives the HAL (GPIO pin writes, SPI duplex exchanges).  Bytes are
    modelled as [Z], C arrays as [list Z] indexed with stdpp's lookup and
    insert, and every array access is checked: an access outside the array
    is undefined behaviour in C and is [None] here.  The file-scope
    variables are threaded through a small state-and-fault monad. *)

From Stdlib Require Import ZArith List Bool Ascii String Lia.
From stdpp Require Import base tactics option list numbers.
Import ListNotations.

Local Open Scope Z_scope.
Local Open Scope list_scope.

(** ** Bytes, characters and string literals *)

Definition is_u8 (v : Z) : Prop := 0 <= v < 256.

(** The code of a character constant such as ['G']. *)
Definition ch (c : ascii) : Z := Z.of_N (N_of_ascii c).

(** The characters of a C string literal; the two-character escape
    backslash-n of the C source denotes the newline byte 10. *)
Fixpoint c_chars (s : string) : list Z :=
  match s with
  | EmptyString => []
  | String "\" (String "n" s') => 10 :: c_chars s'
  | String c s' => ch c :: c_chars s'
  end.

(** The array a C string literal denotes: its characters and the
    terminating NUL. *)
Definition c_lit (s : string) : list Z := c_chars s ++ [0].

(** ** Checked array accesses *)

Definition load (buf : list Z) (i : nat) : option Z := buf !! i.

Definition store (buf : list Z) (i : nat) (v : Z) : option (list Z) :=
  if (i <? length buf)%nat then Some (<[i := v]> buf) else None.

(** ** The C library functions the module calls *)

(** [memset(buf, c, n)]: bytes [i .. i+n) of [buf] become [c]. *)
Fixpoint memset_at (buf : list Z) (i : nat) (c : Z) (n : nat) : option (list Z) :=
  match n with
  | O => Some buf
  | S n' =>
      match store buf i c with
      | Some buf' => memset_at buf' (S i) c n'
      | None => None
      end
  end.

Definition memset (buf : list Z) (c : Z) (n : nat) : option (list Z) :=
  memset_at buf 0 c n.

(** [strcpy(dst, src)]: bytes of [src] are copied up to and including the
    first NUL.  A source array without NUL is read past its end. *)
Fixpoint strcpy_at (dst : list Z) (i : nat) (src : list Z) : option (list Z) :=
  match src with
  | [] => None
  | c :: src' =>
      match store dst i c with
      | Some dst' => if c =? 0 then Some dst' else strcpy_at dst' (S i) src'
      | None => None
      end
  end.

Definition strcpy (dst src : list Z) : option (list Z) := strcpy_at dst 0 src.

(** [strncpy(dst, src, n)]: at most [n] bytes are copied; once the NUL of
    [src] is reached the rest of the [n] bytes is filled with NUL. *)
Fixpoint strncpy_at (dst : list Z) (i : nat) (src : list Z) (n : nat) {struct n}
  : option (list Z) :=
  match n with
  | O => Some dst
  | S n' =>
      match src with
      | [] => None
      | c :: src' =>
          match store dst i c with
          | Some dst' =>
              if c =? 0 then memset_at dst' (S i) 0 n'
              else strncpy_at dst' (S i) src' n'
          | None => None
          end
      end
  end.

Definition strncpy (dst src : list Z) (n : nat) : option (list Z) :=
  strncpy_at dst 0 src n.

(** [strncmp(s1, s2, n)]: the difference of the first differing bytes among
    the first [n], comparison stopping after a common NUL. *)
Fixpoint strncmp (s1 s2 : list Z) (n : nat) {struct n} : option Z :=
  match n with
  | O => Some 0
  | S n' =>
      match s1, s2 with
      | c1 :: t1, c2 :: t2 =>
          if c1 =? c2 then (if c1 =? 0 then Some 0 else strncmp t1 t2 n')
          else Some (c1 - c2)
      | _, _ => None
      end
  end.

(** The conversion [%d] applied to an [uint8_t] argument (promoted to
    [int]): its decimal digits. *)
Definition fmt_d (v : Z) : list Z :=
  if v <? 10 then [ch "0" + v]
  else if v <? 100 then [ch "0" + v / 10; ch "0" + v mod 10]
  else [ch "0" + v / 100; ch "0" + (v / 10) mod 10; ch "0" + v mod 10].

(** [snprintf(dst, size, ...)] once the format is expanded to [text]: at most
    [size - 1] characters are written, then a NUL. *)
Fixpoint write_at (dst : list Z) (i : nat) (src : list Z) : option (list Z) :=
  match src with
  | [] => Some dst
  | c :: src' =>
      match store dst i c with
      | Some dst' => write_at dst' (S i) src'
      | None => None
      end
  end.

Definition snprintf (dst : list Z) (size : nat) (text : list Z) : option (list Z) :=
  match size with
  | O => Some dst
  | S m => write_at dst 0 (take m text ++ [0])
  end.

(** ** The HAL as seen from the module *)

Inductive GPIO_PinState := GPIO_PIN_RESET | GPIO_PIN_SET.

Inductive HAL_StatusTypeDef := HAL_OK | HAL_ERROR | HAL_BUSY | HAL_TIMEOUT.

Inductive SPI_TypeDef := SPI1 | SPI2 | SPI3.

Record SPI_HandleTypeDef := { Instance : SPI_TypeDef }.

Definition SPI_TypeDef_eqb (a b : SPI_TypeDef) : bool :=
  match a, b with
  | SPI1, SPI1 | SPI2, SPI2 | SPI3, SPI3 => true
  | _, _ => false
  end.

(** The handle [MX_SPI1_Init] sets up before [SPI_Slave_Init] is called. *)
Definition hspi1 : SPI_HandleTypeDef := {| Instance := SPI1 |}.

Definition GPIO_PIN_12 : Z := 0x1000.
Definition GPIO_PIN_13 : Z := 0x2000.
Definition GPIO_PIN_14 : Z := 0x4000.
Definition GPIO_PIN_15 : Z := 0x8000.

Definition LED_GREEN_PIN : Z := GPIO_PIN_12.
Definition LED_ORANGE_PIN : Z := GPIO_PIN_13.
Definition LED_RED_PIN : Z := GPIO_PIN_14.
Definition LED_BLUE_PIN : Z := GPIO_PIN_15.

Definition BUFFER_SIZE : nat := 32.

(** The two file-scope frame buffers, as the arguments of an exchange. *)
Inductive frame_buffer := BufTx | BufRx.

(** An interrupt-driven duplex exchange in progress: what
    [HAL_SPI_TransmitReceive_IT] was started on. *)
Record exchange := {
  xfer_out : frame_buffer;
  xfer_in : frame_buffer;
  xfer_size : nat
}.

(** ** Module state: the file-scope variables and the HAL's side

    [spiReady] is declared in the source but never read or written; it is
    left out. *)

Record state := mkState {
  rxBuffer : list Z;
  txBuffer : list Z;
  ledStates : list Z;
  (* calls of HAL_GPIO_WritePin on LED_PORT, oldest first *)
  gpio_writes : list (Z * GPIO_PinState);
  (* the exchange armed on hspi1, if any *)
  spi_armed : option exchange
}.

Definition set_rxBuffer (v : list Z) (st : state) : state :=
  mkState v (txBuffer st) (ledStates st) (gpio_writes st) (spi_armed st).
Definition set_txBuffer (v : list Z) (st : state) : state :=
  mkState (rxBuffer st) v (ledStates st) (gpio_writes st) (spi_armed st).
Definition set_ledStates (v : list Z) (st : state) : state :=
  mkState (rxBuffer st) (txBuffer st) v (gpio_writes st) (spi_armed st).
Definition set_gpio_writes (v : list (Z * GPIO_PinState)) (st : state) : state :=
  mkState (rxBuffer st) (txBuffer st) (ledStates st) v (spi_armed st).
Definition set_spi_armed (v : option exchange) (st : state) : state :=
  mkState (rxBuffer st) (txBuffer st) (ledStates st) (gpio_writes st) v.

(** The state at reset: zero-initialised statics, nothing armed. *)
Definition boot : state :=
  mkState (replicate BUFFER_SIZE 0) (replicate BUFFER_SIZE 0) [0; 0; 0; 0] [] None.

(** ** State-and-fault monad *)

Definition M (A : Type) : Type := state -> option (A * state).

Definition ret {A} (a : A) : M A := fun st => Some (a, st).

Definition bind {A B} (m : M A) (k : A -> M B) : M B :=
  fun st => match m st with
            | Some (a, st') => k a st'
            | None => None
            end.

Definition lift {A} (o : option A) : M A :=
  fun st => match o with
            | Some a => Some (a, st)
            | None => None
            end.

Definition get {A} (f : state -> A) : M A := fun st => Some (f st, st).

Definition modify (f : state -> state) : M unit := fun st => Some (tt, f st).

Notation "'do' x <- m ; k" := (bind m (fun x => k))
  (at level 10, x name, m at level 99, k at level 200).
Notation "m ;; k" := (bind m (fun _ => k))
  (at level 100, k at level 200, right associativity).

Fixpoint for_each (l : list Z) (body : Z -> M unit) : M unit :=
  match l with
  | [] => ret tt
  | i :: l' => body i ;; for_each l' body
  end.

(** The state an operation ends in, when it returns. *)
Definition exec {A} (m : M A) (st : state) : option state :=
  match m st with
  | Some (_, st') => Some st'
  | None => None
  end.

(** ** HAL calls *)

Definition HAL_GPIO_WritePin (pin : Z) (ps : GPIO_PinState) : M unit :=
  modify (fun st => set_gpio_writes (gpio_writes st ++ [(pin, ps)]) st).

Definition HAL_SPI_TransmitReceive_IT (out inb : frame_buffer) (size : nat)
  : M HAL_StatusTypeDef :=
  modify (set_spi_armed (Some {| xfer_out := out; xfer_in := inb; xfer_size := size |})) ;;
  ret HAL_OK.

(** ** LED control functions *)

Definition truthy (v : Z) : bool := negb (v =? 0).

Definition LED_SetState (index state : Z) : M unit :=
  if 4 <=? index then ret tt
  else
    let pinState := if truthy state then GPIO_PIN_SET else GPIO_PIN_RESET in
    do leds <- get ledStates;
    do leds' <- lift (store leds (Z.to_nat index) (if truthy state then 1 else 0));
    modify (set_ledStates leds') ;;
    if index =? 0 then HAL_GPIO_WritePin LED_GREEN_PIN pinState
    else if index =? 1 then HAL_GPIO_WritePin LED_ORANGE_PIN pinState
    else if index =? 2 then HAL_GPIO_WritePin LED_RED_PIN pinState
    else if index =? 3 then HAL_GPIO_WritePin LED_BLUE_PIN pinState
    else ret tt.

Definition LED_SetAll (state : Z) : M unit :=
  for_each (seqZ 0 4) (fun i => LED_SetState i state).

(** ** Command parser *)

(** The copy loop of [ProcessCommand]; [fuel] is [BUFFER_SIZE - 1 - i], so
    the loop condition [i < BUFFER_SIZE - 1] is [fuel > 0]. *)
Fixpoint copy_loop (fuel : nat) (cmdRaw cmd : list Z) (i : nat)
  : option (list Z * nat) :=
  match fuel with
  | O => Some (cmd, i)
  | S fuel' =>
      match load cmdRaw i with
      | Some c =>
          if (c =? ch "010") || (c =? 0) then Some (cmd, i)
          else match store cmd i c with
               | Some cmd' => copy_loop fuel' cmdRaw cmd' (S i)
               | None => None
               end
      | None => None
      end
  end.

(** Lines 73-81: the token is copied into the local array [cmd], whose
    initial contents [cmd0] are indeterminate, and NUL-terminated. *)
Definition extract_token (cmdRaw cmd0 : list Z) : option (list Z * nat) :=
  match copy_loop (BUFFER_SIZE - 1) cmdRaw cmd0 0 with
  | Some (cmd, i) =>
      match store cmd i 0 with
      | Some cmd' => Some (cmd', i)
      | None => None
      end
  | None => None
  end.

Definition status_text (leds : list Z) : option (list Z) :=
  match leds with
  | [a; b; c; d] =>
      Some (c_chars "STA:" ++ fmt_d a ++ fmt_d b ++ fmt_d c ++ fmt_d d ++ c_chars "\n")
  | _ => None
  end.

(** Lines 84-106: grammar matching on the NUL-terminated token. *)
Definition dispatch (cmd response : list Z) : M (list Z) :=
  do r <- lift (strncmp cmd (c_lit "LED:") 4);
  if r =? 0 then
    do color <- lift (load cmd 4);
    do state <- lift (load cmd 5);
    if negb (state =? ch "0") && negb (state =? ch "1") then ret response
    else
      let stateVal := if state =? ch "1" then 1 else 0 in
      if color =? ch "G" then
        LED_SetState 0 stateVal ;; lift (strcpy response (c_lit "OK\n"))
      else if color =? ch "O" then
        LED_SetState 1 stateVal ;; lift (strcpy response (c_lit "OK\n"))
      else if color =? ch "R" then
        LED_SetState 2 stateVal ;; lift (strcpy response (c_lit "OK\n"))
      else if color =? ch "B" then
        LED_SetState 3 stateVal ;; lift (strcpy response (c_lit "OK\n"))
      else if color =? ch "A" then
        LED_SetAll stateVal ;; lift (strcpy response (c_lit "OK\n"))
      else ret response
  else
    do r <- lift (strncmp cmd (c_lit "GET:LED") 7);
    if r =? 0 then
      do leds <- get ledStates;
      do text <- lift (status_text leds);
      lift (snprintf response BUFFER_SIZE text)
    else ret response.

Definition ProcessCommand (cmd0 cmdRaw response : list Z) : M (list Z) :=
  do tok <- lift (extract_token cmdRaw cmd0);
  dispatch (fst tok) response.

(** ** SPI communication, interrupt-driven *)

Definition SPI_Slave_Init : M unit :=
  LED_SetAll 0 ;;
  do rx <- get rxBuffer;
  do rx <- lift (memset rx 0 BUFFER_SIZE);
  modify (set_rxBuffer rx) ;;
  do tx <- get txBuffer;
  do tx <- lift (memset tx 0 BUFFER_SIZE);
  do tx <- lift (strcpy tx (c_lit "RDY\n"));
  modify (set_txBuffer tx) ;;
  HAL_SPI_TransmitReceive_IT BufTx BufRx BUFFER_SIZE ;;
  ret tt.

(** [cmd0] is what the stack holds where [ProcessCommand] places [cmd]. *)
Definition HAL_SPI_TxRxCpltCallback (cmd0 : list Z) (hspi : SPI_HandleTypeDef) : M unit :=
  if SPI_TypeDef_eqb (Instance hspi) (Instance hspi1) then
    let response := replicate BUFFER_SIZE 0 in
    do response <- lift (strcpy response (c_lit "ERR\n"));
    do rx <- get rxBuffer;
    do response <- ProcessCommand cmd0 rx response;
    do tx <- get txBuffer;
    do tx <- lift (memset tx 0 BUFFER_SIZE);
    do tx <- lift (strncpy tx response (BUFFER_SIZE - 1));
    modify (set_txBuffer tx) ;;
    do rx <- get rxBuffer;
    do rx <- lift (memset rx 0 BUFFER_SIZE);
    modify (set_rxBuffer rx) ;;
    HAL_SPI_TransmitReceive_IT BufTx BufRx BUFFER_SIZE ;;
    ret tt
  else ret tt.

Definition HAL_SPI_ErrorCallback (hspi : SPI_HandleTypeDef) : M unit :=
  if SPI_TypeDef_eqb (Instance hspi) (Instance hspi1) then
    do rx <- get rxBuffer;
    do rx <- lift (memset rx 0 BUFFER_SIZE);
    modify (set_rxBuffer rx) ;;
    do tx <- get txBuffer;
    do tx <- lift (memset tx 0 BUFFER_SIZE);
    do tx <- lift (strcpy tx (c_lit "ERR\n"));
    modify (set_txBuffer tx) ;;
    HAL_SPI_TransmitReceive_IT BufTx BufRx BUFFER_SIZE ;;
    ret tt
  else ret tt.

(** ** Polling-based alternative *)

(** What one call of [SPI_Slave_Poll] meets: the level of the select pin
    PA4, the outcome of the blocking exchange with the bytes it left in
    [rxBuffer], and the indeterminate contents of the two local arrays. *)
Record poll_env := {
  nss_pin : GPIO_PinState;
  xfer_status : HAL_StatusTypeDef;
  xfer_data : list Z;
  stack_response : list Z;
  stack_cmd : list Z
}.

Definition HAL_SPI_TransmitReceive (env : poll_env) : M HAL_StatusTypeDef :=
  modify (set_rxBuffer (xfer_data env)) ;;
  ret (xfer_status env).

Definition SPI_Slave_Poll (env : poll_env) : M unit :=
  match nss_pin env with
  | GPIO_PIN_RESET =>
      do rx <- get rxBuffer;
      do rx <- lift (memset rx 0 BUFFER_SIZE);
      modify (set_rxBuffer rx) ;;
      do status <- HAL_SPI_TransmitReceive env;
      match status with
      | HAL_OK =>
          let response := stack_response env in
          do rx <- get rxBuffer;
          do response <- ProcessCommand (stack_cmd env) rx response;
          do tx <- get txBuffer;
          do tx <- lift (memset tx 0 BUFFER_SIZE);
          do tx <- lift (strcpy tx response);
          modify (set_txBuffer tx)
      | _ => ret tt
      end
  | GPIO_PIN_SET => ret tt
  end.

(** ** Direct LED control API *)

Definition SPI_Slave_SetLED (index state : Z) : M unit :=
  LED_SetState index state.

Definition SPI_Slave_GetLED (index : Z) : M Z :=
  if 4 <=? index then ret 0
  else
    do leds <- get ledStates;
    lift (load leds (Z.to_nat index)).

(** ** The transport's events, as the interrupt handler delivers them *)

(** The armed exchange finishes: the HAL has stored the peer's frame in
    [rxBuffer], the handle is idle again, and the completion callback runs
    on [hspi1]. *)
Definition OnComplete (cmd0 inbound : list Z) : M unit :=
  modify (fun st => set_spi_armed None (set_rxBuffer inbound st)) ;;
  HAL_SPI_TxRxCpltCallback cmd0 hspi1.

(** The armed exchange is aborted by a link error: the handle is idle again
    and the error callback runs on [hspi1]. *)
Definition OnFault : M unit :=
  modify (set_spi_armed None) ;;
  HAL_SPI_ErrorCallback hspi1.

Definition Init : M unit := SPI_Slave_Init.

Definition zero_frame : list Z := replicate BUFFER_SIZE 0.

(** A frame holding [text] and NUL up to the 32 bytes of an exchange. *)
Definition padded (text : string) : list Z :=
  take BUFFER_SIZE (c_chars text ++ replicate BUFFER_SIZE 0).

(** ** The step machine of the interrupt-driven endpoint *)

Inductive event :=
  | EvInit
  | EvComplete (cmd0 inbound : list Z)
  | EvFault.

Definition step (e : event) : M unit :=
  match e with
  | EvInit => Init
  | EvComplete cmd0 inbound => OnComplete cmd0 inbound
  | EvFault => OnFault
  end.

(** An exchange moves exactly [BUFFER_SIZE] bytes, and [cmd] is an array of
    [BUFFER_SIZE] bytes whatever it holds. *)
Definition event_ok (e : event) : Prop :=
  match e with
  | EvComplete cmd0 inbound =>
      length cmd0 = BUFFER_SIZE /\ length inbound = BUFFER_SIZE
  | _ => True
  end.

Fixpoint run (es : list event) (st : state) : option state :=
  match es with
  | [] => Some st
  | e :: es' =>
      match exec (step e) st with
      | Some st' => run es' st'
      | None => None
      end
  end.

(** The exchange the module arms: [txBuffer] out, [rxBuffer] in, a whole
    frame. *)
Definition the_exchange : exchange :=
  {| xfer_out := BufTx; xfer_in := BufRx; xfer_size := BUFFER_SIZE |}.

Definition armed (st : state) : Prop := spi_armed st = Some the_exchange.

(** ** Every entry point of the module *)

Inductive op :=
  | OpEvent (e : event)
  | OpPoll (env : poll_env)
  | OpSetLED (index state : Z)
  | OpGetLED (index : Z).

Definition do_op (o : op) : M unit :=
  match o with
  | OpEvent e => step e
  | OpPoll env => SPI_Slave_Poll env
  | OpSetLED index state => SPI_Slave_SetLED index state
  | OpGetLED index => SPI_Slave_GetLED index ;; ret tt
  end.

Definition op_ok (o : op) : Prop :=
  match o with
  | OpEvent e => event_ok e
  | OpPoll env =>
      length (xfer_data env) = BUFFER_SIZE /\
      length (stack_response env) = BUFFER_SIZE /\
      length (stack_cmd env) = BUFFER_SIZE
  | OpSetLED index state => is_u8 index /\ is_u8 state
  | OpGetLED index => is_u8 index
  end.

(** [reaches st st']: [st'] is what some sequence of calls that all return
    leads to from [st]. *)
Inductive reaches (st : state) : state -> Prop :=
  | reaches_refl : reaches st st
  | reaches_step o st1 st2 :
      reaches st st1 -> op_ok o -> exec (do_op o) st1 = Some st2 ->
      reaches st st2.

Definition reachable (st : state) : Prop := reaches boot st.

(** ** Invariant of the file-scope variables *)

Definition bit (v : Z) : Prop := v = 0 \/ v = 1.

Record wf (st : state) : Prop := {
  wf_rx : length (rxBuffer st) = BUFFER_SIZE;
  wf_tx : length (txBuffer st) = BUFFER_SIZE;
  wf_leds : length (ledStates st) = 4%nat;
  wf_bits : Forall bit (ledStates st)
}.

(** ** The protocol as the specification words it *)

Inductive Command :=
  | SetChannel (index value : Z)
  | SetAll (value : Z)
  | Query
  | Unrecognized.

(** The bounded token: the frame up to its first newline or NUL, and no
    more than [BUFFER_SIZE - 1] bytes. *)
Fixpoint until_end (l : list Z) : list Z :=
  match l with
  | [] => []
  | c :: l' => if (c =? 10) || (c =? 0) then [] else c :: until_end l'
  end.

Definition token_of (frame : list Z) : list Z :=
  until_end (take (BUFFER_SIZE - 1) frame).

Fixpoint has_prefix (p tok : list Z) : bool :=
  match p, tok with
  | [], _ => true
  | x :: p', y :: tok' => (y =? x) && has_prefix p' tok'
  | _ :: _, [] => false
  end.

(** index(symbol): G=0, O=1, R=2, B=3. *)
Definition channel_index (sym : Z) : option Z :=
  if sym =? ch "G" then Some 0
  else if sym =? ch "O" then Some 1
  else if sym =? ch "R" then Some 2
  else if sym =? ch "B" then Some 3
  else None.

Definition value_of (v : Z) : option Z :=
  if v =? ch "0" then Some 0
  else if v =? ch "1" then Some 1
  else None.

(** The grammar of the specification, matched by prefix. *)
Definition parse (tok : list Z) : Command :=
  if has_prefix (c_chars "LED:") tok then
    match tok !! 4%nat, tok !! 5%nat with
    | Some sym, Some v =>
        match value_of v with
        | Some b =>
            match channel_index sym with
            | Some i => SetChannel i b
            | None => if sym =? ch "A" then SetAll b else Unrecognized
            end
        | None => Unrecognized
        end
    | _, _ => Unrecognized
    end
  else if has_prefix (c_chars "GET:LED") tok then Query
  else Unrecognized.

Definition matches_grammar (tok : list Z) : bool :=
  match parse tok with
  | Unrecognized => false
  | _ => true
  end.

(** The dispatcher of the specification: the store operation of a command,
    then its response written over the seeded one. *)
Definition apply_command (c : Command) (response : list Z) : M (list Z) :=
  match c with
  | SetChannel i b => LED_SetState i b ;; lift (strcpy response (c_lit "OK\n"))
  | SetAll b => LED_SetAll b ;; lift (strcpy response (c_lit "OK\n"))
  | Query =>
      do leds <- get ledStates;
      do text <- lift (status_text leds);
      lift (snprintf response BUFFER_SIZE text)
  | Unrecognized => ret response
  end.

(** The digit a channel value is rendered as. *)
Definition digit (v : Z) : Z := ch "0" + v.

(** The pin and level [LED_SetState] drives for a valid index. *)
Definition led_pin (index : Z) : Z :=
  if index =? 0 then LED_GREEN_PIN
  else if index =? 1 then LED_ORANGE_PIN
  else if index =? 2 then LED_RED_PIN
  else LED_BLUE_PIN.

Definition pin_state (state : Z) : GPIO_PinState :=
  if truthy state then GPIO_PIN_SET else GPIO_PIN_RESET.

Definition led_value (state : Z) : Z := if truthy state then 1 else 0.

(** What the LED functions leave alone, and what they maintain. *)
Definition keeps (st st' : state) : Prop :=
  rxBuffer st' = rxBuffer st /\
  txBuffer st' = txBuffer st /\
  spi_armed st' = spi_armed st /\
  length (ledStates st') = length (ledStates st) /\
  (Forall bit (ledStates st) -> Forall bit (ledStates st')).

(** The frame a status response fills: the text, then NUL padding. *)
Definition status_frame (leds : list Z) : list Z :=
  take BUFFER_SIZE
    (c_chars "STA:" ++ map digit leds ++ c_chars "\n" ++ replicate BUFFER_SIZE 0).

(** The frame of an [LED:] command: prefix, channel symbol, value digit,
    newline, and whatever the peer clocks out behind it. *)
Definition led_frame (sym v : Z) (pad : list Z) : list Z :=
  c_chars "LED:" ++ [sym; digit v] ++ c_chars "\n" ++ pad.

Definition get_frame (pad : list Z) : list Z := c_chars "GET:LED\n" ++ pad.

(** A poll that finds the select line low and completes its exchange with
    [frame], [junk] being what the stack holds in [response]. *)
Definition poll_of (frame junk : list Z) : poll_env :=
  {| nss_pin := GPIO_PIN_RESET; xfer_status := HAL_OK; xfer_data := frame;
     stack_response := junk; stack_cmd := zero_frame |}.

(** What a command of the grammar does, as pure functions of the state
    before it. *)
Definition valid_command (c : Command) : Prop :=
  match c with
  | SetChannel i b => 0 <= i < 4 /\ bit b
  | SetAll b => bit b
  | Query | Unrecognized => True
  end.

Definition leds_after (c : Command) (leds : list Z) : list Z :=
  match c with
  | SetChannel i b => <[Z.to_nat i := b]> leds
  | SetAll b => [b; b; b; b]
  | Query | Unrecognized => leds
  end.

Definition writes_of (c : Command) : list (Z * GPIO_PinState) :=
  match c with
  | SetChannel i b => [(led_pin i, pin_state b)]
  | SetAll b =>
      [(LED_GREEN_PIN, pin_state b); (LED_ORANGE_PIN, pin_state b);
       (LED_RED_PIN, pin_state b); (LED_BLUE_PIN, pin_state b)]
  | Query | Unrecognized => []
  end.

Definition response_of (c : Command) (leds seed : list Z) : list Z :=
  match c with
  | SetChannel _ _ | SetAll _ => c_lit "OK\n" ++ drop 4 seed
  | Query => c_chars "STA:" ++ map digit leds ++ c_lit "\n" ++ drop 10 seed
  | Unrecognized => seed
  end.

(** A reachable state in which a cell was set through the public API with a
    state byte that is neither 0 nor 1. *)
Definition after_SetLED_200 : state :=
  Eval vm_compute in
    match exec (SPI_Slave_SetLED 2 200) boot with
    | Some st => st
    | None => boot
    end.

(** The frame the completion callback leaves in [txBuffer] for a command. *)
Definition reply_frame (c : Command) (leds : list Z) : list Z :=
  match c with
  | SetChannel _ _ | SetAll _ => padded "OK\n"
  | Query => status_frame leds
  | Unrecognized => padded "ERR\n"
  end.

(** A byte that ends the token. *)
Definition terminator (c : Z) : Prop := c = 10 \/ c = 0.

(** ** The LED pins as the write log leaves them *)

(** [HAL_GPIO_WritePin] drives the pins of its mask; a pin keeps the level
    of the last write whose mask holds it, and [acc] before any. *)
Fixpoint pin_level_from (acc : GPIO_PinState) (log : list (Z * GPIO_PinState))
    (pin : Z) : GPIO_PinState :=
  match log with
  | [] => acc
  | (mask, s) :: log' =>
      pin_level_from (if Z.land mask pin =? 0 then acc else s) log' pin
  end.

(** The level of a pin the module has not written yet is taken as low. *)
Definition pin_level (log : list (Z * GPIO_PinState)) (pin : Z) : GPIO_PinState :=
  pin_level_from GPIO_PIN_RESET log pin.

Definition level_value (s : GPIO_PinState) : Z :=
  match s with
  | GPIO_PIN_SET => 1
  | GPIO_PIN_RESET => 0
  end.

Definition led_pins : list Z :=
  [LED_GREEN_PIN; LED_ORANGE_PIN; LED_RED_PIN; LED_BLUE_PIN].

(** The cells say what the pins are driven to. *)
Definition mirrors (leds : list Z) (log : list (Z * GPIO_PinState)) : Prop :=
  leds = map (fun pin => level_value (pin_level log pin)) led_pins.

(** ** Histories of calls *)

(** [SPI_Slave_Poll] hands the local array [response] to [strcpy] as it
    finds it when the frame is no command.  The copy ends inside [txBuffer]
    when the poll processes nothing, when the frame is a command (whose
    reply is terminated), or when the stack slot of [response] holds a NUL. *)
Definition poll_terminated (env : poll_env) : Prop :=
  nss_pin env = GPIO_PIN_SET \/
  xfer_status env <> HAL_OK \/
  matches_grammar (token_of (xfer_data env)) = true \/
  (exists k : nat, stack_response env !! k = Some 0).

(** What a call needs from its caller and its surroundings. *)
Definition op_pre (o : op) : Prop :=
  op_ok o /\
  match o with
  | OpPoll env => poll_terminated env
  | _ => True
  end.

Fixpoint run_ops (os : list op) (st : state) : option state :=
  match os with
  | [] => Some st
  | o :: os' =>
      match exec (do_op o) st with
      | Some st' => run_ops os' st'
      | None => None
      end
  end.

(** * Proofs *)

(** ** Array writes *)

Section Arrays.
Implicit Types (buf dst src : list Z) (i n : nat).

Lemma store_Some buf i v :
  (i < length buf)%nat -> store buf i v = Some (<[i := v]> buf).
Proof.
  intros Hi. unfold store.
  destruct (Nat.ltb_spec i (length buf)); [reflexivity | lia].
Qed.

Lemma store_length buf i v buf' :
  store buf i v = Some buf' -> length buf' = length buf.
Proof.
  unfold store. destruct (i <? length buf)%nat; [|discriminate].
  intros [= <-]. apply length_insert.
Qed.

Lemma write_at_spec src : forall dst i,
  (i + length src <= length dst)%nat ->
  write_at dst i src = Some (take i dst ++ src ++ drop (i + length src) dst).
Proof.
  induction src as [|c src IH]; intros dst i Hlen; simpl in *.
  - rewrite Nat.add_0_r, take_drop. reflexivity.
  - rewrite store_Some by lia.
    rewrite IH by (rewrite length_insert; lia).
    f_equal.
    rewrite (take_S_r _ i c) by (apply list_lookup_insert_eq; lia).
    rewrite take_insert_ge by lia.
    rewrite drop_insert_lt by lia.
    rewrite <- app_assoc. simpl.
    replace (i + S (length src))%nat with (S (i + length src)) by lia.
    reflexivity.
Qed.

Lemma write_at_length src dst i dst' :
  write_at dst i src = Some dst' -> length dst' = length dst.
Proof.
  revert dst i. induction src as [|c src IH]; intros dst i; simpl.
  - intros [= <-]. reflexivity.
  - destruct (store dst i c) as [d|] eqn:E; [|discriminate].
    intros H. rewrite (IH _ _ H). eapply store_length, E.
Qed.

Lemma memset_at_write n : forall buf i c,
  memset_at buf i c n = write_at buf i (replicate n c).
Proof.
  induction n as [|n IH]; intros buf i c; simpl; [reflexivity|].
  destruct (store buf i c); [apply IH | reflexivity].
Qed.

Lemma memset_full buf c n :
  length buf = n -> memset buf c n = Some (replicate n c).
Proof.
  intros Hn. unfold memset. rewrite memset_at_write, write_at_spec.
  - simpl. rewrite length_replicate, drop_ge by lia.
    rewrite app_nil_r. reflexivity.
  - rewrite length_replicate. lia.
Qed.

(** Copying a literal: its characters are not NUL, so the copy runs to
    the terminator. *)
Lemma strcpy_at_lit s : forall dst i,
  Forall (fun c => c <> 0) s ->
  strcpy_at dst i (s ++ [0]) = write_at dst i (s ++ [0]).
Proof.
  induction s as [|c s IH]; intros dst i Hs; simpl.
  - destruct (store dst i 0); reflexivity.
  - inversion Hs as [|? ? Hc Hs']; subst.
    destruct (store dst i c); [|reflexivity].
    destruct (Z.eqb_spec c 0); [contradiction | apply IH, Hs'].
Qed.

Lemma strcpy_OK dst :
  (4 <= length dst)%nat ->
  strcpy dst (c_lit "OK\n") = Some (c_lit "OK\n" ++ drop 4 dst).
Proof.
  intros H. unfold strcpy, c_lit.
  rewrite strcpy_at_lit by (repeat constructor; discriminate).
  rewrite write_at_spec by (simpl; lia). reflexivity.
Qed.
End Arrays.

(** ** Token extraction *)

Section Token.
Implicit Types (cmdRaw cmd frame : list Z) (i fuel : nat).

Lemma until_end_length l : (length (until_end l) <= length l)%nat.
Proof.
  induction l as [|c l IH]; simpl; [lia|].
  destruct ((c =? 10) || (c =? 0)); simpl; lia.
Qed.

Lemma until_end_clean l :
  Forall (fun c => c <> 10 /\ c <> 0) (until_end l).
Proof.
  induction l as [|c l IH]; simpl; [constructor|].
  destruct (Z.eqb_spec c 10); simpl; [constructor|].
  destruct (Z.eqb_spec c 0); simpl; [constructor|].
  constructor; auto.
Qed.

Lemma token_of_length frame : (length (token_of frame) <= BUFFER_SIZE - 1)%nat.
Proof.
  unfold token_of. etransitivity; [apply until_end_length|].
  rewrite length_take. lia.
Qed.

Lemma copy_loop_spec fuel : forall cmdRaw cmd i,
  (i + fuel <= length cmdRaw)%nat ->
  (i + fuel <= length cmd)%nat ->
  let tok := until_end (take fuel (drop i cmdRaw)) in
  copy_loop fuel cmdRaw cmd i =
    Some (take i cmd ++ tok ++ drop (i + length tok) cmd, (i + length tok)%nat).
Proof.
  induction fuel as [|fuel IH]; intros cmdRaw cmd i Hraw Hcmd; simpl.
  - rewrite Nat.add_0_r, take_drop. reflexivity.
  - destruct (lookup_lt_is_Some_2 cmdRaw i) as [c Hc]; [lia|].
    unfold load. rewrite Hc, (drop_S _ c i Hc). simpl.
    change (ch "010") with 10.
    destruct ((c =? 10) || (c =? 0)); simpl.
    + rewrite Nat.add_0_r, take_drop. reflexivity.
    + rewrite store_Some by lia.
      rewrite IH by (rewrite ?length_insert; lia).
      rewrite (take_S_r _ i c) by (apply list_lookup_insert_eq; lia).
      rewrite take_insert_ge by lia.
      rewrite drop_insert_lt by lia.
      rewrite <- app_assoc. simpl.
      replace (i + S (length (until_end (take fuel (drop (S i) cmdRaw)))))%nat
        with (S (i + length (until_end (take fuel (drop (S i) cmdRaw))))) by lia.
      reflexivity.
Qed.

(** The local array after line 81: the token, its terminator, and what
    the stack held behind it. *)
Lemma extract_token_spec cmdRaw (cmd0 : list Z) :
  length cmdRaw = BUFFER_SIZE -> length cmd0 = BUFFER_SIZE ->
  let tok := token_of cmdRaw in
  extract_token cmdRaw cmd0 =
    Some (tok ++ 0 :: drop (S (length tok)) cmd0, length tok).
Proof.
  intros Hraw Hcmd tok. unfold extract_token.
  rewrite copy_loop_spec by (rewrite ?Hraw, ?Hcmd; unfold BUFFER_SIZE; lia).
  rewrite drop_0. simpl take. simpl app. simpl Nat.add.
  change (until_end (take 31 cmdRaw)) with tok.
  assert (Hlen : (length tok <= 31)%nat) by apply token_of_length.
  clearbody tok. unfold BUFFER_SIZE in *.
  rewrite store_Some by (rewrite length_app, length_drop; lia).
  f_equal. f_equal.
  destruct (lookup_lt_is_Some_2 cmd0 (length tok)) as [x Hx]; [lia|].
  rewrite (drop_S _ x _ Hx).
  replace (length tok) with (length tok + 0)%nat at 1 by lia.
  rewrite insert_app_r. reflexivity.
Qed.
End Token.

#[local] Arguments Z.eqb : simpl never.
#[local] Arguments Z.sub : simpl never.

(** ** Grammar matching *)

Section Grammar.
Implicit Types (tok rest response p : list Z).

Lemma strncmp_prefix p : forall tok rest,
  Forall (fun c => c <> 0) p ->
  exists r, strncmp (tok ++ 0 :: rest) (p ++ [0]) (length p) = Some r /\
            (r =? 0) = has_prefix p tok.
Proof.
  induction p as [|x p IH]; intros tok rest Hp; simpl.
  - exists 0. split; reflexivity.
  - inversion Hp as [|? ? Hx Hp']; subst.
    destruct tok as [|y tok]; simpl.
    + destruct (Z.eqb_spec 0 x) as [E|E]; [congruence|].
      exists (0 - x). split; [reflexivity|]. apply Z.eqb_neq. lia.
    + destruct (Z.eqb_spec y x) as [->|E]; simpl.
      * destruct (Z.eqb_spec x 0); [contradiction|]. apply IH, Hp'.
      * exists (y - x). split; [reflexivity|]. apply Z.eqb_neq. lia.
Qed.

Lemma has_prefix_app p : forall tok,
  has_prefix p tok = true -> exists tl, tok = p ++ tl.
Proof.
  induction p as [|x p IH]; intros tok; simpl.
  - exists tok. reflexivity.
  - destruct tok as [|y tok]; [discriminate|].
    intros [Hy Hp]%andb_prop. apply Z.eqb_eq in Hy as ->.
    destruct (IH _ Hp) as [tl ->]. exists tl. reflexivity.
Qed.

(** Lines 84-106 act on the array exactly as the grammar on the token;
    what the stack held behind the terminator is never decisive. *)
Lemma dispatch_parse tok rest response st :
  (6 <= length (tok ++ 0%Z :: rest))%nat ->
  dispatch (tok ++ 0 :: rest) response st = apply_command (parse tok) response st.
Proof.
  intros Hlen. unfold dispatch, parse.
  destruct (strncmp_prefix (c_chars "LED:") tok rest) as (r & Hr & Hr0);
    [repeat constructor; discriminate|].
  destruct (strncmp_prefix (c_chars "GET:LED") tok rest) as (q & Hq & Hq0);
    [repeat constructor; discriminate|].
  change (strncmp (tok ++ 0 :: rest) (c_lit "LED:") 4 = Some r) in Hr.
  change (strncmp (tok ++ 0 :: rest) (c_lit "GET:LED") 7 = Some q) in Hq.
  unfold bind at 1. rewrite Hr. unfold lift at 1. rewrite Hr0.
  destruct (has_prefix (c_chars "LED:") tok) eqn:Hled.
  - apply has_prefix_app in Hled as [tl ->].
    destruct tl as [|e [|f tl]].
    + destruct rest as [|x rest]; [simpl in Hlen; lia|].
      unfold bind, lift, load. simpl.
      destruct (negb (x =? ch "0") && negb (x =? ch "1")); reflexivity.
    + unfold bind, lift, load. simpl. reflexivity.
    + unfold bind at 1, lift at 1, load at 1. simpl lookup.
      unfold bind at 1, lift at 1, load at 1. simpl lookup.
      unfold value_of, channel_index.
      destruct (Z.eqb_spec f (ch "0")) as [->|F0].
      { change (ch "0" =? ch "1") with false. simpl.
        repeat (destruct (e =? _); [reflexivity|]). reflexivity. }
      destruct (Z.eqb_spec f (ch "1")) as [->|F1]; simpl.
      { repeat (destruct (e =? _); [reflexivity|]). reflexivity. }
      reflexivity.
  - unfold bind at 1. rewrite Hq. unfold lift at 1. rewrite Hq0.
    destruct (has_prefix (c_chars "GET:LED") tok); reflexivity.
Qed.
End Grammar.

(** ** The parser as a whole *)

Lemma ProcessCommand_parse (cmd0 cmdRaw response : list Z) st :
  length cmdRaw = BUFFER_SIZE -> length cmd0 = BUFFER_SIZE ->
  ProcessCommand cmd0 cmdRaw response st =
    apply_command (parse (token_of cmdRaw)) response st.
Proof.
  intros Hraw Hcmd. unfold ProcessCommand, bind, lift.
  rewrite extract_token_spec by assumption. simpl fst.
  apply dispatch_parse.
  pose proof (token_of_length cmdRaw) as Hlen.
  rewrite length_app. simpl. rewrite length_drop, Hcmd.
  unfold BUFFER_SIZE in *. lia.
Qed.

(** ** LED control *)

Section Leds.
Implicit Types (st : state) (index state : Z).

Lemma keeps_refl st : keeps st st.
Proof. repeat split; auto. Qed.

Lemma keeps_trans st1 st2 st3 : keeps st1 st2 -> keeps st2 st3 -> keeps st1 st3.
Proof.
  intros (A1 & A2 & A3 & A4 & A5) (B1 & B2 & B3 & B4 & B5).
  repeat split; try congruence. auto.
Qed.

Lemma HAL_GPIO_WritePin_keeps pin ps st u st' :
  HAL_GPIO_WritePin pin ps st = Some (u, st') -> keeps st st'.
Proof. intros [= <- <-]. repeat split; auto. Qed.

Lemma LED_SetState_keeps index state st u st' :
  LED_SetState index state st = Some (u, st') -> keeps st st'.
Proof.
  unfold LED_SetState, bind, get, lift, modify.
  destruct (4 <=? index); [intros [= <- <-]; apply keeps_refl|].
  destruct (store (ledStates st) (Z.to_nat index) _) as [leds|] eqn:E;
    [|discriminate].
  assert (K : keeps st (set_ledStates leds st)).
  { repeat split; simpl.
    - eapply store_length, E.
    - unfold store in E.
      destruct (Z.to_nat index <? length (ledStates st))%nat; [|discriminate].
      injection E as <-. intros Hb.
      apply Forall_insert; [assumption|].
      unfold bit. destruct (truthy state); auto. }
  repeat (destruct (index =? _);
    [intros H; eapply keeps_trans, HAL_GPIO_WritePin_keeps, H; exact K|]).
  intros [= <- <-]. exact K.
Qed.

Lemma for_each_keeps (body : Z -> M unit) l :
  (forall i st u st', body i st = Some (u, st') -> keeps st st') ->
  forall st u st', for_each l body st = Some (u, st') -> keeps st st'.
Proof.
  intros Hbody. induction l as [|i l IH]; intros st u st'; simpl.
  - intros [= <- <-]. apply keeps_refl.
  - unfold bind. destruct (body i st) as [[v st1]|] eqn:E; [|discriminate].
    intros H. eapply keeps_trans; [eapply Hbody, E | eapply IH, H].
Qed.

Lemma LED_SetAll_keeps state st u st' :
  LED_SetAll state st = Some (u, st') -> keeps st st'.
Proof.
  apply for_each_keeps. intros i s v s'. apply LED_SetState_keeps.
Qed.

Lemma apply_command_keeps c (response : list Z) st r st' :
  apply_command c response st = Some (r, st') -> keeps st st'.
Proof.
  destruct c as [i b|b| |]; unfold apply_command, bind, lift, get.
  - destruct (LED_SetState i b st) as [[u s]|] eqn:E; [|discriminate].
    destruct (strcpy _ _); [|discriminate].
    intros [= <- <-]. eapply LED_SetState_keeps, E.
  - destruct (LED_SetAll b st) as [[u s]|] eqn:E; [|discriminate].
    destruct (strcpy _ _); [|discriminate].
    intros [= <- <-]. eapply LED_SetAll_keeps, E.
  - destruct (status_text _); [|discriminate].
    destruct (snprintf _ _ _); [|discriminate].
    intros [= <- <-]. apply keeps_refl.
  - intros [= <- <-]. apply keeps_refl.
Qed.

Lemma LED_SetState_valid index state st :
  0 <= index < 4 -> length (ledStates st) = 4%nat ->
  LED_SetState index state st =
    Some (tt, set_gpio_writes (gpio_writes st ++ [(led_pin index, pin_state state)])
                (set_ledStates (<[Z.to_nat index := led_value state]> (ledStates st)) st)).
Proof.
  intros Hi Hlen.
  assert (index = 0 \/ index = 1 \/ index = 2 \/ index = 3) as Hc by lia.
  unfold LED_SetState, bind, get, lift, modify.
  destruct Hc as [-> | [-> | [-> | ->]]]; simpl;
    (rewrite store_Some by (rewrite Hlen; simpl; lia)); reflexivity.
Qed.

Lemma LED_SetState_invalid index state st :
  4 <= index -> LED_SetState index state st = Some (tt, st).
Proof.
  intros Hi. unfold LED_SetState.
  destruct (Z.leb_spec 4 index); [reflexivity | lia].
Qed.

Lemma LED_SetAll_valid state st :
  length (ledStates st) = 4%nat ->
  let v := led_value state in
  let p := pin_state state in
  LED_SetAll state st =
    Some (tt, set_gpio_writes
                (gpio_writes st ++ [(LED_GREEN_PIN, p); (LED_ORANGE_PIN, p);
                                    (LED_RED_PIN, p); (LED_BLUE_PIN, p)])
                (set_ledStates [v; v; v; v] st)).
Proof.
  intros Hlen v p. destruct st as [rx tx leds gp sp]. simpl in Hlen.
  destruct leds as [|a [|b [|c [|d [|? ?]]]]]; try discriminate Hlen.
  subst v p. unfold led_value, pin_state.
  cbv -[app truthy]. rewrite <- !app_assoc. reflexivity.
Qed.
End Leds.

(** ** The callbacks *)

Section Callbacks.
Implicit Types (st : state) (inbound response : list Z).

Lemma seed_ERR :
  strcpy (replicate BUFFER_SIZE 0) (c_lit "ERR\n") = Some (padded "ERR\n").
Proof. reflexivity. Qed.

(** One completed exchange: the dispatcher runs on the seeded response,
    the response is copied into the cleared [txBuffer], [rxBuffer] is
    cleared and the next exchange is armed. *)
Lemma OnComplete_run st (cmd0 : list Z) inbound :
  length cmd0 = BUFFER_SIZE -> length inbound = BUFFER_SIZE ->
  length (txBuffer st) = BUFFER_SIZE ->
  OnComplete cmd0 inbound st =
    match apply_command (parse (token_of inbound)) (padded "ERR\n")
            (set_spi_armed None (set_rxBuffer inbound st)) with
    | Some (response, st1) =>
        match strncpy zero_frame response (BUFFER_SIZE - 1) with
        | Some tx =>
            Some (tt, mkState zero_frame tx (ledStates st1) (gpio_writes st1)
                        (Some the_exchange))
        | None => None
        end
    | None => None
    end.
Proof.
  intros Hcmd Hin Htx.
  unfold OnComplete, HAL_SPI_TxRxCpltCallback.
  change (SPI_TypeDef_eqb (Instance hspi1) (Instance hspi1)) with true.
  cbv beta iota.
  unfold bind at 1. unfold modify at 1.
  unfold bind at 1. rewrite seed_ERR. unfold lift at 1.
  unfold bind at 1. unfold get at 1.
  unfold bind at 1.
  rewrite ProcessCommand_parse by assumption.
  destruct (apply_command _ _ _) as [[response st1]|] eqn:E; [|reflexivity].
  destruct (apply_command_keeps _ _ _ _ _ E) as (Krx & Ktx & Ksp & _).
  simpl in Krx, Ktx, Ksp.
  unfold bind at 1, get at 1.
  unfold bind at 1. rewrite memset_full by congruence. unfold lift at 1.
  unfold bind at 1. change (replicate BUFFER_SIZE 0) with zero_frame.
  destruct (strncpy zero_frame response (BUFFER_SIZE - 1)) as [tx|]; [|reflexivity].
  unfold lift at 1.
  unfold bind at 1, modify at 1.
  unfold bind at 1, get at 1.
  unfold bind at 1. rewrite memset_full by (simpl; congruence). unfold lift at 1.
  reflexivity.
Qed.

Lemma Init_run st :
  length (rxBuffer st) = BUFFER_SIZE -> length (txBuffer st) = BUFFER_SIZE ->
  length (ledStates st) = 4%nat ->
  Init st =
    Some (tt, mkState zero_frame (padded "RDY\n") [0; 0; 0; 0]
                (gpio_writes st ++
                 [(LED_GREEN_PIN, GPIO_PIN_RESET); (LED_ORANGE_PIN, GPIO_PIN_RESET);
                  (LED_RED_PIN, GPIO_PIN_RESET); (LED_BLUE_PIN, GPIO_PIN_RESET)])
                (Some the_exchange)).
Proof.
  intros Hrx Htx Hleds. unfold Init, SPI_Slave_Init.
  unfold bind at 1. rewrite LED_SetAll_valid by assumption.
  unfold bind at 1, get at 1.
  unfold bind at 1. rewrite memset_full by exact Hrx. unfold lift at 1.
  unfold bind at 1, modify at 1.
  unfold bind at 1, get at 1.
  unfold bind at 1. rewrite memset_full by exact Htx. unfold lift at 1.
  reflexivity.
Qed.

Lemma OnFault_run st :
  length (rxBuffer st) = BUFFER_SIZE -> length (txBuffer st) = BUFFER_SIZE ->
  OnFault st =
    Some (tt, mkState zero_frame (padded "ERR\n") (ledStates st) (gpio_writes st)
                (Some the_exchange)).
Proof.
  intros Hrx Htx. unfold OnFault, HAL_SPI_ErrorCallback.
  change (SPI_TypeDef_eqb (Instance hspi1) (Instance hspi1)) with true.
  cbv beta iota.
  unfold bind at 1, modify at 1.
  unfold bind at 1, get at 1.
  unfold bind at 1. rewrite memset_full by exact Hrx. unfold lift at 1.
  unfold bind at 1, modify at 1.
  unfold bind at 1, get at 1.
  unfold bind at 1. rewrite memset_full by exact Htx. unfold lift at 1.
  reflexivity.
Qed.

(** A callback raised for another peripheral's handle is ignored. *)
Lemma foreign_handle_ignored (cmd0 : list Z) hspi st :
  Instance hspi <> Instance hspi1 ->
  HAL_SPI_TxRxCpltCallback cmd0 hspi st = Some (tt, st) /\
  HAL_SPI_ErrorCallback hspi st = Some (tt, st).
Proof.
  intros Hne. unfold HAL_SPI_TxRxCpltCallback, HAL_SPI_ErrorCallback.
  destruct hspi as [[]]; simpl in *; try contradiction; split; reflexivity.
Qed.

Lemma OnComplete_unrecognized st (cmd0 : list Z) inbound :
  length cmd0 = BUFFER_SIZE -> length inbound = BUFFER_SIZE ->
  length (txBuffer st) = BUFFER_SIZE ->
  parse (token_of inbound) = Unrecognized ->
  OnComplete cmd0 inbound st =
    Some (tt, mkState zero_frame (padded "ERR\n") (ledStates st) (gpio_writes st)
                (Some the_exchange)).
Proof.
  intros Hcmd Hin Htx Hp. rewrite OnComplete_run, Hp by assumption.
  reflexivity.
Qed.

Lemma OnComplete_set_channel st (cmd0 : list Z) inbound i b :
  length cmd0 = BUFFER_SIZE -> length inbound = BUFFER_SIZE ->
  length (txBuffer st) = BUFFER_SIZE -> length (ledStates st) = 4%nat ->
  parse (token_of inbound) = SetChannel i b -> 0 <= i < 4 ->
  OnComplete cmd0 inbound st =
    Some (tt, mkState zero_frame (padded "OK\n")
                (<[Z.to_nat i := led_value b]> (ledStates st))
                (gpio_writes st ++ [(led_pin i, pin_state b)])
                (Some the_exchange)).
Proof.
  intros Hcmd Hin Htx Hleds Hp Hi. rewrite OnComplete_run, Hp by assumption.
  unfold apply_command, bind.
  rewrite LED_SetState_valid by assumption.
  reflexivity.
Qed.

Lemma OnComplete_set_all st (cmd0 : list Z) inbound b :
  length cmd0 = BUFFER_SIZE -> length inbound = BUFFER_SIZE ->
  length (txBuffer st) = BUFFER_SIZE -> length (ledStates st) = 4%nat ->
  parse (token_of inbound) = SetAll b ->
  OnComplete cmd0 inbound st =
    Some (tt, mkState zero_frame (padded "OK\n")
                [led_value b; led_value b; led_value b; led_value b]
                (gpio_writes st ++
                 [(LED_GREEN_PIN, pin_state b); (LED_ORANGE_PIN, pin_state b);
                  (LED_RED_PIN, pin_state b); (LED_BLUE_PIN, pin_state b)])
                (Some the_exchange)).
Proof.
  intros Hcmd Hin Htx Hleds Hp. rewrite OnComplete_run, Hp by assumption.
  unfold apply_command, bind.
  rewrite LED_SetAll_valid by assumption.
  reflexivity.
Qed.

Lemma OnComplete_query st (cmd0 : list Z) inbound :
  length cmd0 = BUFFER_SIZE -> length inbound = BUFFER_SIZE ->
  length (txBuffer st) = BUFFER_SIZE ->
  length (ledStates st) = 4%nat -> Forall bit (ledStates st) ->
  parse (token_of inbound) = Query ->
  OnComplete cmd0 inbound st =
    Some (tt, mkState zero_frame (status_frame (ledStates st)) (ledStates st)
                (gpio_writes st) (Some the_exchange)).
Proof.
  intros Hcmd Hin Htx Hleds Hbits Hp. rewrite OnComplete_run, Hp by assumption.
  destruct st as [rx tx leds gp sp]. simpl in *.
  destruct leds as [|a [|b [|c [|d [|? ?]]]]]; try discriminate Hleds.
  inversion Hbits as [|? ? Ha Hb1]; subst.
  inversion Hb1 as [|? ? Hb Hb2]; subst.
  inversion Hb2 as [|? ? Hc Hb3]; subst.
  inversion Hb3 as [|? ? Hd _]; subst.
  destruct Ha as [-> | ->], Hb as [-> | ->], Hc as [-> | ->], Hd as [-> | ->];
    reflexivity.
Qed.
End Callbacks.

(** ** What the grammar can produce *)

Lemma parse_SetChannel (tok : list Z) i b :
  parse tok = SetChannel i b -> 0 <= i < 4 /\ bit b.
Proof.
  unfold parse, value_of, channel_index, bit.
  destruct (has_prefix (c_chars "LED:") tok).
  - destruct (tok !! 4%nat) as [sym|]; [|discriminate].
    destruct (tok !! 5%nat) as [v|]; [|discriminate].
    destruct (v =? ch "0"); [|destruct (v =? ch "1"); [|discriminate]];
      repeat (destruct (sym =? _); [intros [= <- <-]; lia|]);
      discriminate.
  - destruct (has_prefix _ tok); discriminate.
Qed.

Lemma parse_SetAll (tok : list Z) b : parse tok = SetAll b -> bit b.
Proof.
  unfold parse, value_of, channel_index, bit.
  destruct (has_prefix (c_chars "LED:") tok).
  - destruct (tok !! 4%nat) as [sym|]; [|discriminate].
    destruct (tok !! 5%nat) as [v|]; [|discriminate].
    destruct (v =? ch "0"); [|destruct (v =? ch "1"); [|discriminate]];
      repeat (destruct (sym =? _); [try discriminate; intros [= <-]; lia|]);
      discriminate.
  - destruct (has_prefix _ tok); discriminate.
Qed.

Lemma led_value_bit b : bit (led_value b).
Proof. unfold bit, led_value. destruct (truthy b); auto. Qed.

Lemma led_value_of_bit b : bit b -> led_value b = b.
Proof. intros [-> | ->]; reflexivity. Qed.

Lemma status_frame_length (leds : list Z) :
  length leds = 4%nat -> length (status_frame leds) = BUFFER_SIZE.
Proof.
  intros H. destruct leds as [|a [|b [|c [|d [|? ?]]]]]; try discriminate H.
  reflexivity.
Qed.

(** ** The invariant *)

Section Invariant.
Implicit Types (st : state) (e : event) (o : op).

Lemma wf_boot : wf boot.
Proof. split; try reflexivity. repeat constructor. Qed.

Lemma wf_keeps st st' : wf st -> keeps st st' -> wf st'.
Proof.
  intros [H1 H2 H3 H4] (K1 & K2 & _ & K4 & K5).
  split; try congruence. auto.
Qed.

(** Every event of the step machine returns, with an exchange armed. *)
Lemma step_total st e :
  wf st -> event_ok e ->
  exists st', exec (step e) st = Some st' /\ armed st' /\ wf st'.
Proof.
  intros [Hrx Htx Hleds Hbits] He. unfold exec.
  destruct e as [|cmd0 inbound|]; simpl step.
  - rewrite Init_run by assumption. eexists. split; [reflexivity|].
    split; [reflexivity|]. split; try reflexivity.
    repeat constructor.
  - destruct He as [Hcmd Hin].
    destruct (parse (token_of inbound)) as [i b|b| |] eqn:Hp.
    + destruct (parse_SetChannel _ _ _ Hp) as [Hi Hb].
      erewrite OnComplete_set_channel by eassumption.
      eexists. split; [reflexivity|]. split; [reflexivity|].
      split; simpl; try reflexivity.
      * rewrite length_insert. assumption.
      * apply Forall_insert; [assumption | apply led_value_bit].
    + erewrite OnComplete_set_all by eassumption.
      eexists. split; [reflexivity|]. split; [reflexivity|].
      split; simpl; try reflexivity.
      repeat (constructor; [apply led_value_bit|]). constructor.
    + rewrite OnComplete_query by assumption.
      eexists. split; [reflexivity|]. split; [reflexivity|].
      split; simpl; try assumption; try reflexivity.
      apply status_frame_length, Hleds.
    + rewrite OnComplete_unrecognized by assumption.
      eexists. split; [reflexivity|]. split; [reflexivity|].
      split; simpl; try assumption; reflexivity.
  - rewrite OnFault_run by assumption. eexists. split; [reflexivity|].
    split; [reflexivity|]. split; simpl; try assumption; reflexivity.
Qed.

Lemma run_total es : forall st,
  wf st -> Forall event_ok es ->
  exists st', run es st = Some st' /\ wf st' /\ (armed st \/ es <> [] -> armed st').
Proof.
  induction es as [|e es IH]; intros st Hwf Hes; simpl.
  - exists st. split; [reflexivity|]. split; [exact Hwf|].
    intros [H | H]; [exact H | contradiction].
  - inversion Hes as [|? ? He Hes']; subst.
    destruct (step_total st e Hwf He) as (st1 & -> & Ha & Hwf1).
    destruct (IH st1 Hwf1 Hes') as (st' & Hr & Hwf' & Harm).
    exists st'. split; [exact Hr|]. split; [exact Hwf'|]. auto.
Qed.

Lemma strcpy_at_length src : forall dst i dst',
  strcpy_at dst i src = Some dst' -> length dst' = length dst.
Proof.
  induction src as [|c src IH]; intros dst i dst'; simpl; [discriminate|].
  destruct (store dst i c) as [d|] eqn:E; [|discriminate].
  apply store_length in E.
  destruct (c =? 0).
  - intros [= <-]. exact E.
  - intros H. rewrite (IH _ _ _ H). exact E.
Qed.

(** One poll that finds the select line low and whose exchange succeeds:
    the dispatcher runs on whatever the stack held in [response]. *)
Lemma Poll_run st env :
  length (rxBuffer st) = BUFFER_SIZE -> length (txBuffer st) = BUFFER_SIZE ->
  length (xfer_data env) = BUFFER_SIZE -> length (stack_cmd env) = BUFFER_SIZE ->
  nss_pin env = GPIO_PIN_RESET -> xfer_status env = HAL_OK ->
  SPI_Slave_Poll env st =
    match apply_command (parse (token_of (xfer_data env))) (stack_response env)
            (set_rxBuffer (xfer_data env) st) with
    | Some (response, st1) =>
        match strcpy zero_frame response with
        | Some tx => Some (tt, set_txBuffer tx st1)
        | None => None
        end
    | None => None
    end.
Proof.
  intros Hrx Htx Hdata Hcmd Hnss Hst. unfold SPI_Slave_Poll. rewrite Hnss.
  unfold bind at 1, get at 1.
  unfold bind at 1. rewrite memset_full by exact Hrx. unfold lift at 1.
  unfold bind at 1, modify at 1.
  unfold bind at 1, HAL_SPI_TransmitReceive at 1. rewrite Hst.
  unfold bind at 1, modify at 1, ret at 1.
  unfold bind at 1, get at 1.
  unfold bind at 1.
  rewrite ProcessCommand_parse by assumption.
  simpl set_rxBuffer.
  destruct (apply_command _ _ _) as [[response st1]|] eqn:E; [|reflexivity].
  destruct (apply_command_keeps _ _ _ _ _ E) as (Krx & Ktx & Ksp & _).
  simpl in Krx, Ktx, Ksp.
  unfold bind at 1, get at 1.
  unfold bind at 1. rewrite memset_full by congruence. unfold lift at 1.
  unfold bind at 1. change (replicate BUFFER_SIZE 0) with zero_frame.
  destruct (strcpy zero_frame response) as [tx|]; reflexivity.
Qed.

Lemma Poll_wf st env st' :
  wf st -> op_ok (OpPoll env) ->
  exec (SPI_Slave_Poll env) st = Some st' -> wf st'.
Proof.
  intros Hwf (Hdata & Hresp & Hcmd). destruct Hwf as [Hrx Htx Hleds Hbits].
  unfold exec.
  destruct (nss_pin env) eqn:Hnss.
  - destruct (xfer_status env) eqn:Hst.
    + rewrite Poll_run by assumption.
      destruct (apply_command _ _ _) as [[response st1]|] eqn:E; [|discriminate].
      destruct (strcpy zero_frame response) as [tx|] eqn:Ec; [|discriminate].
      intros [= <-].
      destruct (apply_command_keeps _ _ _ _ _ E) as (Krx & Ktx & _ & Klen & Kbits).
      simpl in *. apply strcpy_at_length in Ec.
      split; simpl.
      * rewrite Krx. exact Hdata.
      * rewrite Ec. reflexivity.
      * rewrite Klen. exact Hleds.
      * apply Kbits, Hbits.
    + unfold SPI_Slave_Poll. rewrite Hnss.
      unfold bind, get, lift, modify, HAL_SPI_TransmitReceive, ret.
      rewrite memset_full by exact Hrx. rewrite Hst.
      intros [= <-]. split; simpl; assumption.
    + unfold SPI_Slave_Poll. rewrite Hnss.
      unfold bind, get, lift, modify, HAL_SPI_TransmitReceive, ret.
      rewrite memset_full by exact Hrx. rewrite Hst.
      intros [= <-]. split; simpl; assumption.
    + unfold SPI_Slave_Poll. rewrite Hnss.
      unfold bind, get, lift, modify, HAL_SPI_TransmitReceive, ret.
      rewrite memset_full by exact Hrx. rewrite Hst.
      intros [= <-]. split; simpl; assumption.
  - unfold SPI_Slave_Poll. rewrite Hnss. intros [= <-].
    split; assumption.
Qed.

Lemma GetLED_valid st index :
  0 <= index < 4 -> length (ledStates st) = 4%nat ->
  exists v, SPI_Slave_GetLED index st = Some (v, st) /\
            ledStates st !! Z.to_nat index = Some v.
Proof.
  intros Hi Hlen. unfold SPI_Slave_GetLED.
  destruct (Z.leb_spec 4 index); [lia|].
  destruct (lookup_lt_is_Some_2 (ledStates st) (Z.to_nat index)) as [v Hv];
    [lia|].
  exists v. unfold bind, get, lift, load. rewrite Hv. split; reflexivity.
Qed.

Lemma GetLED_invalid st index :
  4 <= index -> SPI_Slave_GetLED index st = Some (0, st).
Proof.
  intros Hi. unfold SPI_Slave_GetLED.
  destruct (Z.leb_spec 4 index); [reflexivity | lia].
Qed.

Lemma do_op_wf st o st' :
  wf st -> op_ok o -> exec (do_op o) st = Some st' -> wf st'.
Proof.
  intros Hwf Hok. destruct o as [e|env|index state|index]; simpl do_op.
  - destruct (step_total st e Hwf Hok) as (st1 & -> & _ & Hwf1).
    intros [= <-]. exact Hwf1.
  - apply Poll_wf; assumption.
  - unfold exec, SPI_Slave_SetLED.
    destruct (LED_SetState index state st) as [[u s]|] eqn:E; [|discriminate].
    intros [= <-]. eapply wf_keeps, LED_SetState_keeps, E. exact Hwf.
  - unfold exec, bind.
    destruct (Z.le_gt_cases 4 index) as [Hi | Hi].
    + rewrite GetLED_invalid by exact Hi. intros [= <-]. exact Hwf.
    + destruct Hok as [Hlo _].
      destruct (GetLED_valid st index) as (v & -> & _);
        [lia | apply Hwf |].
      intros [= <-]. exact Hwf.
Qed.

Lemma reaches_wf st st' : wf st -> reaches st st' -> wf st'.
Proof.
  intros Hwf Hr. induction Hr as [|o st1 st2 _ IH Hok Hex]; [exact Hwf|].
  eapply do_op_wf; eassumption.
Qed.

Lemma reachable_wf st : reachable st -> wf st.
Proof. apply reaches_wf, wf_boot. Qed.

Lemma run_reaches es : forall st st',
  Forall event_ok es -> run es st = Some st' -> reaches st st'.
Proof.
  induction es as [|e es IH] using rev_ind; intros st st' Hes; simpl.
  - intros [= <-]. constructor.
  - apply Forall_app in Hes as [Hes He]. inversion He as [|? ? He' _]; subst.
    revert st' . clear He.
    assert (Hrun : forall l1 l2 s s', run (l1 ++ l2) s = s' ->
              match run l1 s with Some s1 => run l2 s1 | None => None end = s').
    { induction l1 as [|x l1 IHl]; intros l2 s s'; simpl; [auto|].
      destruct (exec (step x) s); auto. }
    intros st' H. apply Hrun in H.
    destruct (run es st) as [s1|] eqn:E; [|discriminate].
    simpl in H. destruct (exec (step e) s1) as [s2|] eqn:E2; [|discriminate].
    injection H as <-.
    eapply (reaches_step _ (OpEvent e)); [eapply IH; eauto | exact He' | exact E2].
Qed.
End Invariant.

(** ** Frames of the command table *)

Section Frames.
Implicit Types (st : state) (pad inbound : list Z).

Lemma led_frame_length sym v pad :
  length pad = 25%nat -> length (led_frame sym v pad) = BUFFER_SIZE.
Proof. intros H. unfold led_frame. rewrite !length_app, H. reflexivity. Qed.

Lemma get_frame_length pad :
  length pad = 24%nat -> length (get_frame pad) = BUFFER_SIZE.
Proof. intros H. unfold get_frame. rewrite !length_app, H. reflexivity. Qed.

Lemma channel_index_cases sym i :
  channel_index sym = Some i ->
  (sym = ch "G" /\ i = 0) \/ (sym = ch "O" /\ i = 1) \/
  (sym = ch "R" /\ i = 2) \/ (sym = ch "B" /\ i = 3).
Proof.
  unfold channel_index.
  destruct (Z.eqb_spec sym (ch "G")); [intros [= <-]; auto|].
  destruct (Z.eqb_spec sym (ch "O")); [intros [= <-]; auto|].
  destruct (Z.eqb_spec sym (ch "R")); [intros [= <-]; auto|].
  destruct (Z.eqb_spec sym (ch "B")); [intros [= <-]; auto 6|].
  discriminate.
Qed.

Lemma parse_led_frame sym v pad i :
  channel_index sym = Some i -> bit v ->
  parse (token_of (led_frame sym v pad)) = SetChannel i v.
Proof.
  intros Hs Hv. apply channel_index_cases in Hs.
  destruct Hs as [[-> ->] | [[-> ->] | [[-> ->] | [-> ->]]]];
    destruct Hv as [-> | ->]; reflexivity.
Qed.

Lemma parse_all_frame v pad :
  bit v -> parse (token_of (led_frame (ch "A") v pad)) = SetAll v.
Proof. intros [-> | ->]; reflexivity. Qed.

Lemma parse_get_frame pad : parse (token_of (get_frame pad)) = Query.
Proof. reflexivity. Qed.

(** A recognised [SetChannel] command, processed on completion. *)
Lemma OnComplete_led st (cmd0 : list Z) inbound i b :
  wf st -> length cmd0 = BUFFER_SIZE -> length inbound = BUFFER_SIZE ->
  parse (token_of inbound) = SetChannel i b ->
  exists st', exec (OnComplete cmd0 inbound) st = Some st' /\
              SPI_Slave_GetLED i st' = Some (b, st') /\
              txBuffer st' = padded "OK\n" /\
              ledStates st' = <[Z.to_nat i := b]> (ledStates st) /\
              armed st'.
Proof.
  intros [Hrx Htx Hleds Hbits] Hcmd Hin Hp.
  destruct (parse_SetChannel _ _ _ Hp) as [Hi Hb].
  unfold exec. erewrite OnComplete_set_channel by eassumption.
  rewrite (led_value_of_bit b Hb).
  eexists. split; [reflexivity|].
  split; [|repeat split].
  destruct (GetLED_valid
    (mkState zero_frame (padded "OK\n") (<[Z.to_nat i := b]> (ledStates st))
       (gpio_writes st ++ [(led_pin i, pin_state b)]) (Some the_exchange)) i)
    as (v & Hg & Hv); [exact Hi | simpl; rewrite length_insert; exact Hleds |].
  simpl in Hv. rewrite list_lookup_insert_eq in Hv by lia.
  injection Hv as <-. exact Hg.
Qed.
End Frames.

(** ** The dispatcher on an arbitrary seed *)

Section Dispatcher.
Implicit Types (st : state) (c : Command) (response : list Z).

Lemma parse_valid (tok : list Z) : valid_command (parse tok).
Proof.
  destruct (parse tok) as [i b|b| |] eqn:Hp; simpl; auto.
  - eapply parse_SetChannel, Hp.
  - eapply parse_SetAll, Hp.
Qed.

Lemma status_text_bits (leds : list Z) :
  length leds = 4%nat -> Forall bit leds ->
  status_text leds = Some (c_chars "STA:" ++ map digit leds ++ c_chars "\n").
Proof.
  intros Hlen Hbits.
  destruct leds as [|a [|b [|c [|d [|? ?]]]]]; try discriminate Hlen.
  inversion Hbits as [|? ? Ha Hb1]; subst.
  inversion Hb1 as [|? ? Hb Hb2]; subst.
  inversion Hb2 as [|? ? Hc Hb3]; subst.
  inversion Hb3 as [|? ? Hd _]; subst.
  destruct Ha as [-> | ->], Hb as [-> | ->], Hc as [-> | ->], Hd as [-> | ->];
    reflexivity.
Qed.

Lemma apply_command_spec st c response :
  wf st -> length response = BUFFER_SIZE -> valid_command c ->
  apply_command c response st =
    Some (response_of c (ledStates st) response,
          mkState (rxBuffer st) (txBuffer st) (leds_after c (ledStates st))
            (gpio_writes st ++ writes_of c) (spi_armed st)).
Proof.
  intros [Hrx Htx Hleds Hbits] Hresp Hc.
  destruct c as [i b|b| |]; unfold apply_command, bind, lift, get; simpl in Hc.
  - destruct Hc as [Hi Hb].
    rewrite LED_SetState_valid by assumption.
    rewrite strcpy_OK by (rewrite Hresp; unfold BUFFER_SIZE; lia).
    rewrite (led_value_of_bit b Hb). reflexivity.
  - rewrite LED_SetAll_valid by assumption.
    rewrite strcpy_OK by (rewrite Hresp; unfold BUFFER_SIZE; lia).
    rewrite (led_value_of_bit b Hc). reflexivity.
  - rewrite status_text_bits by assumption.
    unfold snprintf, BUFFER_SIZE in *.
    destruct (ledStates st) as [|x [|y [|z [|w [|? ?]]]]] eqn:El;
      try discriminate Hleds.
    simpl take. rewrite write_at_spec by (rewrite Hresp; simpl; lia).
    destruct st; simpl in *. rewrite app_nil_r, El. reflexivity.
  - destruct st; simpl. rewrite app_nil_r. reflexivity.
Qed.

End Dispatcher.

(** ** Frames the grammar rejects *)

Lemma bad_led_frame_unrecognized (sym val : Z) (rest : list Z) :
  value_of val = None \/ (channel_index sym = None /\ sym <> ch "A") ->
  matches_grammar (token_of (c_chars "LED:" ++ sym :: val :: rest)) = false.
Proof.
  intros Hbad. unfold matches_grammar, token_of, BUFFER_SIZE.
  simpl take. simpl until_end.
  destruct ((sym =? 10) || (sym =? 0)); [reflexivity|].
  destruct ((val =? 10) || (val =? 0)); [reflexivity|].
  unfold parse. simpl.
  destruct Hbad as [Hv | [Hs Ha]].
  - rewrite Hv. reflexivity.
  - rewrite Hs. apply Z.eqb_neq in Ha. rewrite Ha.
    destruct (value_of val); reflexivity.
Qed.

(** ** Polling against the completion callback *)

Section Polling.
Implicit Types (st : state) (env : poll_env).

(** On input the grammar rejects, the poll transmits what the stack held:
    nothing seeds [response]. *)
Lemma Poll_unrecognized st env :
  wf st -> op_ok (OpPoll env) ->
  nss_pin env = GPIO_PIN_RESET -> xfer_status env = HAL_OK ->
  parse (token_of (xfer_data env)) = Unrecognized ->
  SPI_Slave_Poll env st =
    match strcpy zero_frame (stack_response env) with
    | Some tx => Some (tt, set_txBuffer tx (set_rxBuffer (xfer_data env) st))
    | None => None
    end.
Proof.
  intros [Hrx Htx _ _] (Hdata & _ & Hcmd) Hnss Hst Hp.
  rewrite Poll_run, Hp by assumption. reflexivity.
Qed.

(** On a command of the grammar both drivers leave the same cells, the
    same pin writes and the same outbound frame. *)
Lemma Poll_recognized st env (cmd0 : list Z) :
  wf st -> op_ok (OpPoll env) -> length cmd0 = BUFFER_SIZE ->
  nss_pin env = GPIO_PIN_RESET -> xfer_status env = HAL_OK ->
  matches_grammar (token_of (xfer_data env)) = true ->
  exists st1 st2,
    exec (SPI_Slave_Poll env) st = Some st1 /\
    exec (OnComplete cmd0 (xfer_data env)) st = Some st2 /\
    ledStates st1 = ledStates st2 /\
    gpio_writes st1 = gpio_writes st2 /\
    txBuffer st1 = txBuffer st2.
Proof.
  intros Hwf (Hdata & Hresp & Hcmd) Hcmd0 Hnss Hst Hm.
  pose proof Hwf as [Hrx Htx Hleds Hbits].
  unfold exec.
  rewrite Poll_run, OnComplete_run by assumption.
  pose proof (parse_valid (token_of (xfer_data env))) as Hv.
  unfold matches_grammar in Hm.
  rewrite !apply_command_spec;
    try assumption; try reflexivity; try (split; assumption).
  simpl rxBuffer; simpl txBuffer; simpl ledStates; simpl gpio_writes.
  destruct (parse (token_of (xfer_data env))) as [i b|b| |];
    try discriminate Hm.
  - do 2 eexists. repeat split; reflexivity.
  - do 2 eexists. repeat split; reflexivity.
  - destruct (ledStates st) as [|x [|y [|z [|w [|? ?]]]]] eqn:El;
      try discriminate Hleds.
    inversion Hbits as [|? ? Ha Hb1]; subst.
    inversion Hb1 as [|? ? Hb Hb2]; subst.
    inversion Hb2 as [|? ? Hc Hb3]; subst.
    inversion Hb3 as [|? ? Hd _]; subst.
    destruct Ha as [-> | ->], Hb as [-> | ->], Hc as [-> | ->], Hd as [-> | ->];
      do 2 eexists; repeat split; reflexivity.
Qed.
End Polling.

(** * The claims *)

Ltac wf_now := split; [reflexivity | reflexivity | reflexivity | repeat constructor].

(** ** Availability *)

(** C1: from boot, after any sequence of Init, OnComplete and OnFault
    events, each further event returns and leaves the duplex exchange armed
    on the outbound and inbound buffers; every state reached by at least one
    event is armed. *)
Theorem exchange_always_armed (es : list event) (e : event) :
  Forall event_ok es -> event_ok e ->
  exists st st',
    run es boot = Some st /\ (es <> [] -> armed st) /\
    exec (step e) st = Some st' /\ armed st'.
Proof.
  intros Hes He.
  destruct (run_total es boot wf_boot Hes) as (st & Hr & Hwf & Ha).
  destruct (step_total st e Hwf He) as (st' & Hs & Ha' & _).
  exists st, st'.
  split; [exact Hr|]. split; [|split; [exact Hs | exact Ha']].
  intros Hne. apply Ha. right. exact Hne.
Qed.

Lemma exchange_always_armed_witness :
  Forall event_ok [EvInit; EvFault] /\
  event_ok (EvComplete zero_frame (padded "LED:G1\n")) /\
  exists st st',
    run [EvInit; EvFault] boot = Some st /\
    ([EvInit; EvFault] <> [] -> armed st) /\
    exec (step (EvComplete zero_frame (padded "LED:G1\n"))) st = Some st' /\
    armed st'.
Proof.
  assert (H1 : Forall event_ok [EvInit; EvFault]) by (repeat constructor).
  assert (H2 : event_ok (EvComplete zero_frame (padded "LED:G1\n")))
    by (split; reflexivity).
  split; [exact H1|]. split; [exact H2|].
  exact (exchange_always_armed [EvInit; EvFault]
           (EvComplete zero_frame (padded "LED:G1\n")) H1 H2).
Defined.

(** ** Commands *)

(** C2: for a channel symbol c of G, O, R, B and a value v of 0, 1, the
    frame LED:cv followed by newline, processed on completion, sets channel
    index(c) to v, so that GetChannel(index(c)) returns v, and loads the
    response OK into the outbound buffer. *)
Theorem led_channel_command_ok (st : state) (cmd0 pad : list Z) (sym idx v : Z) :
  wf st -> length cmd0 = BUFFER_SIZE -> length pad = 25%nat ->
  channel_index sym = Some idx -> bit v ->
  exists st',
    exec (OnComplete cmd0 (led_frame sym v pad)) st = Some st' /\
    SPI_Slave_GetLED idx st' = Some (v, st') /\
    ledStates st' = <[Z.to_nat idx := v]> (ledStates st) /\
    txBuffer st' = padded "OK\n".
Proof.
  intros Hwf Hcmd Hpad Hs Hv.
  destruct (OnComplete_led st cmd0 (led_frame sym v pad) idx v)
    as (st' & H1 & H2 & H3 & H4 & _); auto using led_frame_length, parse_led_frame.
  exists st'. auto.
Qed.

Lemma led_channel_command_ok_witness :
  wf boot /\ length zero_frame = BUFFER_SIZE /\
  length (replicate 25 (ch "x")) = 25%nat /\
  channel_index (ch "R") = Some 2 /\ bit 1 /\
  exists st',
    exec (OnComplete zero_frame (led_frame (ch "R") 1 (replicate 25 (ch "x")))) boot
      = Some st' /\
    SPI_Slave_GetLED 2 st' = Some (1, st') /\
    ledStates st' = <[Z.to_nat 2 := 1]> (ledStates boot) /\
    txBuffer st' = padded "OK\n".
Proof.
  assert (H1 : wf boot) by wf_now.
  assert (H2 : length zero_frame = BUFFER_SIZE) by reflexivity.
  assert (H3 : length (replicate 25 (ch "x")) = 25%nat) by reflexivity.
  assert (H4 : channel_index (ch "R") = Some 2) by reflexivity.
  assert (H5 : bit 1) by (right; reflexivity).
  repeat (split; [assumption|]).
  exact (led_channel_command_ok boot zero_frame (replicate 25 (ch "x"))
           (ch "R") 2 1 H1 H2 H3 H4 H5).
Defined.

(** C3: whatever the channel state, the frame GET:LED followed by newline,
    processed on completion, yields exactly STA: then the four channel
    values in index order 0..3, each as the character 0 or 1 without
    separators, then newline; no channel changes. *)
Theorem get_led_status_response (st : state) (cmd0 pad : list Z) :
  wf st -> length cmd0 = BUFFER_SIZE -> length pad = 24%nat ->
  exists st' a b c d,
    exec (OnComplete cmd0 (get_frame pad)) st = Some st' /\
    ledStates st = [a; b; c; d] /\
    txBuffer st' =
      c_chars "STA:" ++ [digit a; digit b; digit c; digit d] ++ c_chars "\n" ++
      replicate 23 0 /\
    [digit a; digit b; digit c; digit d] =
      map (fun v => if v =? 0 then ch "0" else ch "1") [a; b; c; d] /\
    ledStates st' = ledStates st /\
    gpio_writes st' = gpio_writes st.
Proof.
  intros Hwf Hcmd Hpad. pose proof Hwf as [Hrx Htx Hleds Hbits].
  unfold exec.
  rewrite OnComplete_query;
    auto using get_frame_length, parse_get_frame.
  destruct (ledStates st) as [|a [|b [|c [|d [|? ?]]]]] eqn:El;
    try discriminate Hleds.
  eexists. exists a, b, c, d.
  split; [reflexivity|]. split; [reflexivity|]. split; [reflexivity|].
  split; [|split; reflexivity].
  inversion Hbits as [|? ? Ha Hb1]; subst.
  inversion Hb1 as [|? ? Hb Hb2]; subst.
  inversion Hb2 as [|? ? Hc Hb3]; subst.
  inversion Hb3 as [|? ? Hd _]; subst.
  destruct Ha as [-> | ->], Hb as [-> | ->], Hc as [-> | ->], Hd as [-> | ->];
    reflexivity.
Qed.

Lemma get_led_status_response_witness :
  wf after_SetLED_200 /\ length zero_frame = BUFFER_SIZE /\
  length (replicate 24 0) = 24%nat /\
  exists st' a b c d,
    exec (OnComplete zero_frame (get_frame (replicate 24 0))) after_SetLED_200
      = Some st' /\
    ledStates after_SetLED_200 = [a; b; c; d] /\
    txBuffer st' =
      c_chars "STA:" ++ [digit a; digit b; digit c; digit d] ++ c_chars "\n" ++
      replicate 23 0 /\
    [digit a; digit b; digit c; digit d] =
      map (fun v => if v =? 0 then ch "0" else ch "1") [a; b; c; d] /\
    ledStates st' = ledStates after_SetLED_200 /\
    gpio_writes st' = gpio_writes after_SetLED_200.
Proof.
  assert (H1 : wf after_SetLED_200) by wf_now.
  assert (H2 : length zero_frame = BUFFER_SIZE) by reflexivity.
  assert (H3 : length (replicate 24 0) = 24%nat) by reflexivity.
  repeat (split; [assumption|]).
  exact (get_led_status_response after_SetLED_200 zero_frame (replicate 24 0)
           H1 H2 H3).
Defined.

(** The inputs the specification names as outside the grammar. *)
Lemma unrecognized_examples :
  Forall (fun f => length f = BUFFER_SIZE /\ matches_grammar (token_of f) = false)
    [padded "LED:X1\n"; padded "LED:G2\n"; padded "FOO\n"; zero_frame].
Proof. repeat constructor. Qed.

(** C4: for every inbound frame whose token the grammar does not match,
    processing on completion leaves every channel unchanged, writes no pin,
    and the outbound buffer holds the pre-seeded response ERR. *)
Theorem unrecognized_yields_err (st : state) (cmd0 inbound : list Z) :
  wf st -> length cmd0 = BUFFER_SIZE -> length inbound = BUFFER_SIZE ->
  matches_grammar (token_of inbound) = false ->
  exists st',
    exec (OnComplete cmd0 inbound) st = Some st' /\
    ledStates st' = ledStates st /\
    gpio_writes st' = gpio_writes st /\
    txBuffer st' = padded "ERR\n".
Proof.
  intros [Hrx Htx Hleds Hbits] Hcmd Hin Hm.
  assert (Hp : parse (token_of inbound) = Unrecognized).
  { unfold matches_grammar in Hm.
    destruct (parse (token_of inbound)); try discriminate Hm. reflexivity. }
  unfold exec. rewrite OnComplete_unrecognized by assumption.
  eexists. repeat split; reflexivity.
Qed.

Lemma unrecognized_yields_err_witness :
  wf after_SetLED_200 /\ length zero_frame = BUFFER_SIZE /\
  length (padded "LED:G2\n") = BUFFER_SIZE /\
  matches_grammar (token_of (padded "LED:G2\n")) = false /\
  exists st',
    exec (OnComplete zero_frame (padded "LED:G2\n")) after_SetLED_200 = Some st' /\
    ledStates st' = ledStates after_SetLED_200 /\
    gpio_writes st' = gpio_writes after_SetLED_200 /\
    txBuffer st' = padded "ERR\n".
Proof.
  assert (H1 : wf after_SetLED_200) by wf_now.
  assert (H2 : length zero_frame = BUFFER_SIZE) by reflexivity.
  assert (H3 : length (padded "LED:G2\n") = BUFFER_SIZE) by reflexivity.
  assert (H4 : matches_grammar (token_of (padded "LED:G2\n")) = false)
    by reflexivity.
  repeat (split; [assumption|]).
  exact (unrecognized_yields_err after_SetLED_200 zero_frame (padded "LED:G2\n")
           H1 H2 H3 H4).
Defined.

(** C5, at the input where the polling driver departs from the completion
    callback: on the unrecognized frame FOO the callback answers ERR, while
    the poll copies the never-written local [response] into the outbound
    buffer: with zeros on the stack the outbound frame is empty, and with a
    stack holding no NUL the copy runs off both arrays. *)
Theorem poll_unrecognized_not_err :
  exists st0 st1 st2,
    exec Init boot = Some st0 /\
    matches_grammar (token_of (padded "FOO\n")) = false /\
    exec (OnComplete zero_frame (padded "FOO\n")) st0 = Some st1 /\
    txBuffer st1 = padded "ERR\n" /\
    exec (SPI_Slave_Poll (poll_of (padded "FOO\n") zero_frame)) st0 = Some st2 /\
    txBuffer st2 = zero_frame /\
    txBuffer st2 <> txBuffer st1 /\
    exec (SPI_Slave_Poll (poll_of (padded "FOO\n") (replicate BUFFER_SIZE (ch "U"))))
      st0 = None.
Proof.
  do 3 eexists.
  split; [vm_compute; reflexivity|].
  split; [reflexivity|].
  split; [vm_compute; reflexivity|].
  split; [reflexivity|].
  split; [vm_compute; reflexivity|].
  split; [reflexivity|].
  split; [discriminate|].
  vm_compute. reflexivity.
Qed.

(** C6: the frames LED:A1 and LED:A0 followed by newline set all four
    channels to the value and answer OK; SetAll is SetChannel on the indices
    0, 1, 2, 3 in this order, as the order of the pin writes shows. *)
Theorem led_all_command_ok (st : state) (cmd0 pad : list Z) (v : Z) :
  wf st -> length cmd0 = BUFFER_SIZE -> length pad = 25%nat -> bit v ->
  exists st',
    exec (OnComplete cmd0 (led_frame (ch "A") v pad)) st = Some st' /\
    ledStates st' = [v; v; v; v] /\
    txBuffer st' = padded "OK\n" /\
    gpio_writes st' =
      gpio_writes st ++
      [(LED_GREEN_PIN, pin_state v); (LED_ORANGE_PIN, pin_state v);
       (LED_RED_PIN, pin_state v); (LED_BLUE_PIN, pin_state v)] /\
    (forall s, LED_SetAll v s =
       (LED_SetState 0 v ;; LED_SetState 1 v ;; LED_SetState 2 v ;;
        LED_SetState 3 v ;; ret tt) s).
Proof.
  intros [Hrx Htx Hleds Hbits] Hcmd Hpad Hv.
  unfold exec.
  erewrite OnComplete_set_all;
    eauto using led_frame_length, parse_all_frame.
  rewrite (led_value_of_bit v Hv).
  eexists. repeat split; reflexivity.
Qed.

Lemma led_all_command_ok_witness :
  wf boot /\ length zero_frame = BUFFER_SIZE /\
  length (replicate 25 0) = 25%nat /\ bit 1 /\
  exists st',
    exec (OnComplete zero_frame (led_frame (ch "A") 1 (replicate 25 0))) boot
      = Some st' /\
    ledStates st' = [1; 1; 1; 1] /\
    txBuffer st' = padded "OK\n" /\
    gpio_writes st' =
      gpio_writes boot ++
      [(LED_GREEN_PIN, pin_state 1); (LED_ORANGE_PIN, pin_state 1);
       (LED_RED_PIN, pin_state 1); (LED_BLUE_PIN, pin_state 1)] /\
    (forall s, LED_SetAll 1 s =
       (LED_SetState 0 1 ;; LED_SetState 1 1 ;; LED_SetState 2 1 ;;
        LED_SetState 3 1 ;; ret tt) s).
Proof.
  assert (H1 : wf boot) by wf_now.
  assert (H2 : length zero_frame = BUFFER_SIZE) by reflexivity.
  assert (H3 : length (replicate 25 0) = 25%nat) by reflexivity.
  assert (H4 : bit 1) by (right; reflexivity).
  repeat (split; [assumption|]).
  exact (led_all_command_ok boot zero_frame (replicate 25 0) 1 H1 H2 H3 H4).
Defined.

(** ** Faults *)

(** C7: from every reachable state, a transport fault resets both buffers,
    forces ERR outbound and re-arms; the frame LED:G1 processed on the next
    completion still gives GetChannel(0) = 1 and the response OK. *)
Theorem fault_then_command_ok (st : state) (cmd0 pad : list Z) :
  reachable st -> length cmd0 = BUFFER_SIZE -> length pad = 25%nat ->
  exists st1 st2,
    exec OnFault st = Some st1 /\
    rxBuffer st1 = zero_frame /\ txBuffer st1 = padded "ERR\n" /\ armed st1 /\
    exec (OnComplete cmd0 (led_frame (ch "G") 1 pad)) st1 = Some st2 /\
    SPI_Slave_GetLED 0 st2 = Some (1, st2) /\
    txBuffer st2 = padded "OK\n" /\ armed st2.
Proof.
  intros Hreach Hcmd Hpad.
  pose proof (reachable_wf st Hreach) as [Hrx Htx Hleds Hbits].
  unfold exec at 1. rewrite OnFault_run by assumption.
  eexists.
  edestruct (OnComplete_led
    (mkState zero_frame (padded "ERR\n") (ledStates st) (gpio_writes st)
       (Some the_exchange)) cmd0 (led_frame (ch "G") 1 pad) 0 1)
    as (st2 & H1 & H2 & H3 & _ & H5);
    [split; simpl; trivial | exact Hcmd | apply led_frame_length, Hpad
    | apply parse_led_frame; [reflexivity | right; reflexivity] |].
  exists st2.
  split; [reflexivity|]. split; [reflexivity|]. split; [reflexivity|].
  split; [reflexivity|]. auto.
Qed.

Lemma fault_then_command_ok_witness :
  reachable after_SetLED_200 /\ length zero_frame = BUFFER_SIZE /\
  length (replicate 25 0) = 25%nat /\
  exists st1 st2,
    exec OnFault after_SetLED_200 = Some st1 /\
    rxBuffer st1 = zero_frame /\ txBuffer st1 = padded "ERR\n" /\ armed st1 /\
    exec (OnComplete zero_frame (led_frame (ch "G") 1 (replicate 25 0))) st1
      = Some st2 /\
    SPI_Slave_GetLED 0 st2 = Some (1, st2) /\
    txBuffer st2 = padded "OK\n" /\ armed st2.
Proof.
  assert (H1 : reachable after_SetLED_200).
  { apply (reaches_step boot (OpSetLED 2 200) boot);
      [apply reaches_refl | vm_compute; intuition discriminate | reflexivity]. }
  assert (H2 : length zero_frame = BUFFER_SIZE) by reflexivity.
  assert (H3 : length (replicate 25 0) = 25%nat) by reflexivity.
  repeat (split; [assumption|]).
  exact (fault_then_command_ok after_SetLED_200 zero_frame (replicate 25 0)
           H1 H2 H3).
Defined.

(** ** The state store *)

(** C8: for an index outside [0,4), SetChannel changes nothing at all
    (no channel, no buffer, no pin) and GetChannel returns 0; for an index
    inside [0,4), GetChannel returns the cell and leaves the state as it
    was. *)
Theorem invalid_index_noop (st : state) (index value : Z) :
  is_u8 index ->
  (4 <= index ->
     SPI_Slave_SetLED index value st = Some (tt, st) /\
     SPI_Slave_GetLED index st = Some (0, st)) /\
  (index < 4 -> wf st ->
     exists v, SPI_Slave_GetLED index st = Some (v, st) /\
               ledStates st !! Z.to_nat index = Some v).
Proof.
  intros [Hlo Hhi]. split.
  - intros Hi. split.
    + apply LED_SetState_invalid, Hi.
    + apply GetLED_invalid, Hi.
  - intros Hi Hwf. apply GetLED_valid; [lia | apply Hwf].
Qed.

Lemma invalid_index_noop_witness :
  is_u8 7 /\ is_u8 2 /\
  (SPI_Slave_SetLED 7 1 after_SetLED_200 = Some (tt, after_SetLED_200) /\
   SPI_Slave_GetLED 7 after_SetLED_200 = Some (0, after_SetLED_200)) /\
  exists v, SPI_Slave_GetLED 2 after_SetLED_200 = Some (v, after_SetLED_200) /\
            ledStates after_SetLED_200 !! Z.to_nat 2 = Some v.
Proof.
  assert (H1 : is_u8 7) by (unfold is_u8; lia).
  assert (H2 : is_u8 2) by (unfold is_u8; lia).
  assert (H3 : wf after_SetLED_200) by wf_now.
  split; [exact H1|]. split; [exact H2|]. split.
  - apply (proj1 (invalid_index_noop after_SetLED_200 7 1 H1)). lia.
  - apply (proj2 (invalid_index_noop after_SetLED_200 2 0 H2)); [lia | exact H3].
Defined.

(** ** The parser on a full frame *)

(** A frame filled to capacity: a valid command, then garbage without
    newline up to the last byte. *)
Example full_frame_parsed :
  let frame := c_chars "LED:G1" ++ replicate 26 (ch "x") in
  length frame = BUFFER_SIZE /\
  length (token_of frame) = 31%nat /\
  exists st', exec (OnComplete zero_frame frame) boot = Some st' /\
              ledStates st' = [1; 0; 0; 0] /\ txBuffer st' = padded "OK\n".
Proof.
  split; [reflexivity|]. split; [reflexivity|].
  eexists. split; [vm_compute; reflexivity|]. split; reflexivity.
Qed.



(** ** Channel cells *)

(** C10, at the input where the code loses the invariant: a poll against an
    initialised module receives the unrecognized frame FOO while the stack
    slot of [response] holds 32 bytes without NUL.  [ProcessCommand] leaves
    [response] as it is, and the copy into [txBuffer] does not end within
    the 32 bytes of either array: the call writes behind [txBuffer], where
    the other statics of the file lie, the cells among them. *)
Theorem unterminated_poll_overruns_txBuffer :
  let junk := replicate BUFFER_SIZE (ch "U") in
  let env := poll_of (padded "FOO\n") junk in
  exists st0 st1,
    exec Init boot = Some st0 /\
    Forall bit (ledStates st0) /\
    op_ok (OpPoll env) /\
    matches_grammar (token_of (xfer_data env)) = false /\
    ProcessCommand (stack_cmd env) (xfer_data env) junk
      (set_rxBuffer (xfer_data env) st0) = Some (junk, st1) /\
    write_at zero_frame 0 junk = Some junk /\
    strcpy zero_frame junk = None /\
    exec (SPI_Slave_Poll env) st0 = None.
Proof.
  intros junk env. do 2 eexists.
  split; [vm_compute; reflexivity|].
  split; [repeat constructor|].
  split; [repeat split; reflexivity|].
  split; [reflexivity|].
  split; [vm_compute; reflexivity|].
  split; [reflexivity|].
  split; vm_compute; reflexivity.
Qed.

(** * Further properties *)

(** ** What every entry point does to the cells and the pins *)

Section Effects.
Implicit Types (st : state) (c : Command) (inbound : list Z).

Lemma wf_received st inbound :
  wf st -> length inbound = BUFFER_SIZE ->
  wf (set_spi_armed None (set_rxBuffer inbound st)).
Proof. intros [Hrx Htx Hleds Hbits] Hin. split; assumption. Qed.

(** One completed exchange, whatever the frame: the state it ends in. *)
Lemma OnComplete_effect st (cmd0 : list Z) inbound :
  wf st -> length cmd0 = BUFFER_SIZE -> length inbound = BUFFER_SIZE ->
  let c := parse (token_of inbound) in
  OnComplete cmd0 inbound st =
    Some (tt, mkState zero_frame (reply_frame c (ledStates st))
                (leds_after c (ledStates st)) (gpio_writes st ++ writes_of c)
                (Some the_exchange)).
Proof.
  intros Hwf Hcmd Hin c. pose proof Hwf as [Hrx Htx Hleds Hbits].
  destruct (parse (token_of inbound)) as [i b|b| |] eqn:Hp; subst c.
  - destruct (parse_SetChannel _ _ _ Hp) as [Hi Hb].
    erewrite OnComplete_set_channel by eassumption.
    rewrite (led_value_of_bit b Hb). reflexivity.
  - pose proof (parse_SetAll _ _ Hp) as Hb.
    erewrite OnComplete_set_all by eassumption.
    rewrite (led_value_of_bit b Hb). reflexivity.
  - rewrite OnComplete_query by assumption. simpl. rewrite app_nil_r. reflexivity.
  - rewrite OnComplete_unrecognized by assumption.
    simpl. rewrite app_nil_r. reflexivity.
Qed.

Lemma pin_state_led_value state : pin_state (led_value state) = pin_state state.
Proof. unfold pin_state, led_value. destruct (truthy state); reflexivity. Qed.

(** Each call changes cells and pins as one command of the grammar does,
    [Unrecognized] standing for no change. *)
Lemma do_op_effect st o st' :
  wf st -> op_ok o -> exec (do_op o) st = Some st' ->
  exists c, valid_command c /\
            ledStates st' = leds_after c (ledStates st) /\
            gpio_writes st' = gpio_writes st ++ writes_of c.
Proof.
  intros Hwf Hok. pose proof Hwf as [Hrx Htx Hleds Hbits].
  assert (Hsame : forall s : state,
            ledStates s = ledStates st -> gpio_writes s = gpio_writes st ->
            exists c, valid_command c /\
                      ledStates s = leds_after c (ledStates st) /\
                      gpio_writes s = gpio_writes st ++ writes_of c).
  { intros s H1 H2. exists Unrecognized. simpl. rewrite app_nil_r. auto. }
  destruct o as [[|cmd0 inbound|]|env|index state|index]; simpl do_op; unfold exec.
  - simpl step. rewrite Init_run by assumption. intros [= <-].
    exists (SetAll 0). split; [left; reflexivity|]. split; reflexivity.
  - destruct Hok as [Hcmd Hin]. simpl step.
    rewrite OnComplete_effect by assumption. intros [= <-].
    exists (parse (token_of inbound)). split; [apply parse_valid|].
    split; reflexivity.
  - simpl step. rewrite OnFault_run by assumption. intros [= <-].
    apply Hsame; reflexivity.
  - destruct Hok as (Hdata & Hresp & Hsc).
    destruct (nss_pin env) eqn:Hnss.
    + destruct (xfer_status env) eqn:Hst.
      * rewrite Poll_run by assumption.
        rewrite apply_command_spec;
          [|split; assumption | assumption | apply parse_valid].
        destruct (strcpy zero_frame _); [|discriminate]. intros [= <-].
        exists (parse (token_of (xfer_data env))).
        split; [apply parse_valid|]. split; reflexivity.
      * unfold SPI_Slave_Poll. rewrite Hnss.
        unfold bind, get, lift, modify, HAL_SPI_TransmitReceive, ret.
        rewrite memset_full by exact Hrx. rewrite Hst.
        intros [= <-]. apply Hsame; reflexivity.
      * unfold SPI_Slave_Poll. rewrite Hnss.
        unfold bind, get, lift, modify, HAL_SPI_TransmitReceive, ret.
        rewrite memset_full by exact Hrx. rewrite Hst.
        intros [= <-]. apply Hsame; reflexivity.
      * unfold SPI_Slave_Poll. rewrite Hnss.
        unfold bind, get, lift, modify, HAL_SPI_TransmitReceive, ret.
        rewrite memset_full by exact Hrx. rewrite Hst.
        intros [= <-]. apply Hsame; reflexivity.
    + unfold SPI_Slave_Poll. rewrite Hnss. intros [= <-].
      apply Hsame; reflexivity.
  - destruct Hok as [[Hlo _] _]. unfold SPI_Slave_SetLED.
    destruct (Z.le_gt_cases 4 index) as [Hi | Hi].
    + rewrite LED_SetState_invalid by exact Hi. intros [= <-].
      apply Hsame; reflexivity.
    + rewrite LED_SetState_valid by (try assumption; lia). intros [= <-].
      exists (SetChannel index (led_value state)).
      split; [split; [lia | apply led_value_bit]|].
      simpl. rewrite pin_state_led_value. split; reflexivity.
  - unfold bind. destruct Hok as [Hlo _].
    destruct (Z.le_gt_cases 4 index) as [Hi | Hi].
    + rewrite GetLED_invalid by exact Hi. intros [= <-].
      apply Hsame; reflexivity.
    + destruct (GetLED_valid st index) as (v & -> & _); [lia | exact Hleds |].
      intros [= <-]. apply Hsame; reflexivity.
Qed.
End Effects.

(** ** Pins and cells *)

Section Pins.
Implicit Types (log : list (Z * GPIO_PinState)) (pin : Z).

Lemma pin_level_from_app log1 : forall acc log2 pin,
  pin_level_from acc (log1 ++ log2) pin =
    pin_level_from (pin_level_from acc log1 pin) log2 pin.
Proof.
  induction log1 as [|[mask s] log1 IH]; intros acc log2 pin; simpl;
    [reflexivity | apply IH].
Qed.

Lemma pin_level_app log1 log2 pin :
  pin_level (log1 ++ log2) pin = pin_level_from (pin_level log1 pin) log2 pin.
Proof. apply pin_level_from_app. Qed.

Lemma level_value_pin_state b : bit b -> level_value (pin_state b) = b.
Proof. intros [-> | ->]; reflexivity. Qed.

Lemma mirrors_after c (leds : list Z) log :
  valid_command c -> mirrors leds log ->
  mirrors (leds_after c leds) (log ++ writes_of c).
Proof.
  unfold mirrors, led_pins. intros Hc ->.
  destruct c as [i b|b| |]; simpl in Hc; simpl leds_after; simpl writes_of.
  - destruct Hc as [Hi Hb].
    assert (i = 0 \/ i = 1 \/ i = 2 \/ i = 3) as Hcase by lia.
    destruct Hcase as [-> | [-> | [-> | ->]]]; simpl;
      rewrite !pin_level_app; simpl;
      rewrite (level_value_pin_state b Hb); reflexivity.
  - simpl. rewrite !pin_level_app. simpl.
    rewrite (level_value_pin_state b Hc). reflexivity.
  - rewrite app_nil_r. reflexivity.
  - rewrite app_nil_r. reflexivity.
Qed.
End Pins.

(** ** Where the token ends *)

Section TokenEnd.
Implicit Types (l body rest frame : list Z) (t : Z) (k : nat).

Lemma terminator_test t : terminator t -> (t =? 10) || (t =? 0) = true.
Proof. intros [-> | ->]; reflexivity. Qed.

Lemma test_terminator t : (t =? 10) || (t =? 0) = true -> terminator t.
Proof.
  unfold terminator.
  destruct (Z.eqb_spec t 10); [auto|].
  destruct (Z.eqb_spec t 0); [auto | discriminate].
Qed.

Lemma until_end_take_app body : forall k t rest,
  terminator t ->
  until_end (take k (body ++ t :: rest)) = until_end (take k body).
Proof.
  induction body as [|c body IH]; intros k t rest Ht; destruct k as [|k]; simpl;
    try reflexivity.
  - rewrite (terminator_test t Ht). reflexivity.
  - destruct ((c =? 10) || (c =? 0)); [reflexivity|].
    f_equal. apply IH, Ht.
Qed.

Lemma until_end_prefix l : until_end l = take (length (until_end l)) l.
Proof.
  induction l as [|c l IH]; simpl; [reflexivity|].
  destruct ((c =? 10) || (c =? 0)); simpl; [reflexivity|].
  f_equal. exact IH.
Qed.

Lemma until_end_stop l :
  length (until_end l) = length l \/
  exists t, l !! length (until_end l) = Some t /\ terminator t.
Proof.
  induction l as [|c l IH]; simpl; [left; reflexivity|].
  destruct ((c =? 10) || (c =? 0)) eqn:E; simpl.
  - right. exists c. split; [reflexivity | apply test_terminator, E].
  - destruct IH as [-> | IH]; [left; reflexivity | right; exact IH].
Qed.

Lemma until_end_before l : forall k t,
  l !! k = Some t -> terminator t -> (length (until_end l) <= k)%nat.
Proof.
  induction l as [|c l IH]; intros k t Hk Ht; [discriminate|].
  destruct k as [|k]; simpl in *.
  - injection Hk as ->. rewrite (terminator_test t Ht). simpl. lia.
  - destruct ((c =? 10) || (c =? 0)); simpl; [lia|].
    specialize (IH k t Hk Ht). lia.
Qed.

(** A token of fewer than six bytes is no command. *)
Lemma parse_short (tok : list Z) :
  (length tok < 6)%nat -> parse tok = Unrecognized.
Proof.
  intros H. unfold parse.
  destruct (has_prefix (c_chars "LED:") tok) eqn:Hled.
  - apply has_prefix_app in Hled as [tl ->].
    destruct tl as [|e [|f tl]]; try reflexivity.
    simpl in H. lia.
  - destruct (has_prefix (c_chars "GET:LED") tok) eqn:Hget; [|reflexivity].
    apply has_prefix_app in Hget as [tl ->]. simpl in H. lia.
Qed.

(** Only the first six bytes of an [LED:] token and the first seven of a
    [GET:LED] token are looked at. *)
Lemma parse_led_prefix (sym val : Z) (tl : list Z) :
  parse (c_chars "LED:" ++ sym :: val :: tl) = parse (c_chars "LED:" ++ [sym; val]).
Proof. reflexivity. Qed.

Lemma parse_get_prefix (tl : list Z) : parse (c_chars "GET:LED" ++ tl) = Query.
Proof. reflexivity. Qed.
End TokenEnd.

(** ** Initialisation, faults and foreign handles *)

(** Initialisation, whatever the module held before: the four cells are
    off, the four pins are driven low in the order green, orange, red, blue,
    the inbound buffer is zeroed, the outbound buffer holds RDY and the first
    exchange is armed. *)
Theorem init_resets_everything (st : state) :
  wf st ->
  exists st',
    exec Init st = Some st' /\
    ledStates st' = [0; 0; 0; 0] /\
    gpio_writes st' =
      gpio_writes st ++
      [(LED_GREEN_PIN, GPIO_PIN_RESET); (LED_ORANGE_PIN, GPIO_PIN_RESET);
       (LED_RED_PIN, GPIO_PIN_RESET); (LED_BLUE_PIN, GPIO_PIN_RESET)] /\
    rxBuffer st' = zero_frame /\
    txBuffer st' = padded "RDY\n" /\
    armed st'.
Proof.
  intros [Hrx Htx Hleds _]. unfold exec. rewrite Init_run by assumption.
  eexists. repeat split; reflexivity.
Qed.

Lemma init_resets_everything_witness :
  wf after_SetLED_200 /\
  exists st',
    exec Init after_SetLED_200 = Some st' /\
    ledStates st' = [0; 0; 0; 0] /\
    gpio_writes st' =
      gpio_writes after_SetLED_200 ++
      [(LED_GREEN_PIN, GPIO_PIN_RESET); (LED_ORANGE_PIN, GPIO_PIN_RESET);
       (LED_RED_PIN, GPIO_PIN_RESET); (LED_BLUE_PIN, GPIO_PIN_RESET)] /\
    rxBuffer st' = zero_frame /\
    txBuffer st' = padded "RDY\n" /\
    armed st'.
Proof.
  assert (H1 : wf after_SetLED_200) by wf_now.
  split; [exact H1|].
  exact (init_resets_everything after_SetLED_200 H1).
Defined.

(** A transport fault changes no cell and writes no pin. *)
Theorem fault_keeps_leds (st : state) :
  wf st ->
  exists st',
    exec OnFault st = Some st' /\
    ledStates st' = ledStates st /\
    gpio_writes st' = gpio_writes st.
Proof.
  intros [Hrx Htx _ _]. unfold exec. rewrite OnFault_run by assumption.
  eexists. repeat split; reflexivity.
Qed.

Lemma fault_keeps_leds_witness :
  wf after_SetLED_200 /\
  exists st',
    exec OnFault after_SetLED_200 = Some st' /\
    ledStates st' = ledStates after_SetLED_200 /\
    gpio_writes st' = gpio_writes after_SetLED_200.
Proof.
  assert (H1 : wf after_SetLED_200) by wf_now.
  split; [exact H1|].
  exact (fault_keeps_leds after_SetLED_200 H1).
Defined.

Lemma foreign_handle_ignored_witness :
  Instance {| Instance := SPI2 |} <> Instance hspi1 /\
  HAL_SPI_TxRxCpltCallback zero_frame {| Instance := SPI2 |} after_SetLED_200
    = Some (tt, after_SetLED_200) /\
  HAL_SPI_ErrorCallback {| Instance := SPI2 |} after_SetLED_200
    = Some (tt, after_SetLED_200).
Proof.
  assert (H1 : Instance {| Instance := SPI2 |} <> Instance hspi1)
    by (simpl; discriminate).
  split; [exact H1|].
  exact (foreign_handle_ignored zero_frame {| Instance := SPI2 |}
           after_SetLED_200 H1).
Defined.

(** ** The reply to every event *)

(** After each event both the cells and the two buffers are known: the
    inbound buffer is zeroed, and the outbound buffer holds RDY after
    initialisation, ERR after a fault, and after a completed exchange the
    reply of the grammar to the frame's token (OK, the status line, or ERR).
    RDY is loaded by initialisation only. *)
Theorem outbound_frame_after_event (st : state) (e : event) :
  wf st -> event_ok e ->
  exists st',
    exec (step e) st = Some st' /\
    rxBuffer st' = zero_frame /\
    txBuffer st' =
      match e with
      | EvInit => padded "RDY\n"
      | EvFault => padded "ERR\n"
      | EvComplete _ inbound => reply_frame (parse (token_of inbound)) (ledStates st)
      end /\
    (txBuffer st' = padded "RDY\n" <-> e = EvInit).
Proof.
  intros Hwf He. pose proof Hwf as [Hrx Htx Hleds Hbits]. unfold exec.
  destruct e as [|cmd0 inbound|]; simpl step.
  - rewrite Init_run by assumption. eexists.
    split; [reflexivity|]. split; [reflexivity|]. split; [reflexivity|].
    split; reflexivity.
  - destruct He as [Hcmd Hin]. rewrite OnComplete_effect by assumption.
    eexists. split; [reflexivity|]. split; [reflexivity|]. split; [reflexivity|].
    simpl txBuffer. split; [|discriminate].
    destruct (parse (token_of inbound)); simpl; discriminate.
  - rewrite OnFault_run by assumption. eexists.
    split; [reflexivity|]. split; [reflexivity|]. split; [reflexivity|].
    split; discriminate.
Qed.

Lemma outbound_frame_after_event_witness :
  wf after_SetLED_200 /\
  event_ok (EvComplete zero_frame (padded "GET:LED\n")) /\
  exists st',
    exec (step (EvComplete zero_frame (padded "GET:LED\n"))) after_SetLED_200
      = Some st' /\
    rxBuffer st' = zero_frame /\
    txBuffer st' =
      reply_frame (parse (token_of (padded "GET:LED\n")))
        (ledStates after_SetLED_200) /\
    (txBuffer st' = padded "RDY\n" <->
     EvComplete zero_frame (padded "GET:LED\n") = EvInit).
Proof.
  assert (H1 : wf after_SetLED_200) by wf_now.
  assert (H2 : event_ok (EvComplete zero_frame (padded "GET:LED\n")))
    by (split; reflexivity).
  split; [exact H1|]. split; [exact H2|].
  exact (outbound_frame_after_event after_SetLED_200
           (EvComplete zero_frame (padded "GET:LED\n")) H1 H2).
Defined.

(** Processing the same frame a second time changes neither the cells nor
    the reply. *)
Theorem command_idempotent (st : state) (cmd0 cmd1 inbound : list Z) :
  wf st -> length cmd0 = BUFFER_SIZE -> length cmd1 = BUFFER_SIZE ->
  length inbound = BUFFER_SIZE ->
  exists st1 st2,
    exec (OnComplete cmd0 inbound) st = Some st1 /\
    exec (OnComplete cmd1 inbound) st1 = Some st2 /\
    ledStates st2 = ledStates st1 /\
    txBuffer st2 = txBuffer st1 /\
    rxBuffer st2 = rxBuffer st1 /\
    spi_armed st2 = spi_armed st1.
Proof.
  intros Hwf Hc0 Hc1 Hin.
  destruct (step_total st (EvComplete cmd0 inbound) Hwf (conj Hc0 Hin))
    as (st1 & Hs1 & _ & Hwf1).
  simpl step in Hs1.
  unfold exec in Hs1. rewrite OnComplete_effect in Hs1 by assumption.
  injection Hs1 as <-.
  unfold exec. do 2 eexists.
  split; [rewrite (OnComplete_effect st) by assumption; reflexivity|].
  split; [rewrite OnComplete_effect by assumption; reflexivity|].
  simpl.
  pose proof (parse_valid (token_of inbound)) as Hv.
  destruct (parse (token_of inbound)) as [i b|b| |]; simpl;
    repeat split; try reflexivity.
  rewrite list_insert_insert_eq. reflexivity.
Qed.

Lemma command_idempotent_witness :
  wf boot /\ length zero_frame = BUFFER_SIZE /\
  length (replicate BUFFER_SIZE (ch "1")) = BUFFER_SIZE /\
  length (padded "LED:B1\n") = BUFFER_SIZE /\
  exists st1 st2,
    exec (OnComplete zero_frame (padded "LED:B1\n")) boot = Some st1 /\
    exec (OnComplete (replicate BUFFER_SIZE (ch "1")) (padded "LED:B1\n")) st1
      = Some st2 /\
    ledStates st2 = ledStates st1 /\
    txBuffer st2 = txBuffer st1 /\
    rxBuffer st2 = rxBuffer st1 /\
    spi_armed st2 = spi_armed st1.
Proof.
  assert (H1 : wf boot) by wf_now.
  assert (H2 : length zero_frame = BUFFER_SIZE) by reflexivity.
  assert (H3 : length (replicate BUFFER_SIZE (ch "1")) = BUFFER_SIZE)
    by reflexivity.
  assert (H4 : length (padded "LED:B1\n") = BUFFER_SIZE) by reflexivity.
  repeat (split; [assumption|]).
  exact (command_idempotent boot zero_frame (replicate BUFFER_SIZE (ch "1"))
           (padded "LED:B1\n") H1 H2 H3 H4).
Defined.

(** A channel set by an LED command shows in the next status line: the
    digit of that channel is the value just set, the other digits are the
    cells as they were. *)
Theorem set_then_query (st : state) (cmd0 cmd1 pad1 pad2 : list Z) (sym idx v : Z) :
  wf st -> length cmd0 = BUFFER_SIZE -> length cmd1 = BUFFER_SIZE ->
  length pad1 = 25%nat -> length pad2 = 24%nat ->
  channel_index sym = Some idx -> bit v ->
  exists st1 st2,
    exec (OnComplete cmd0 (led_frame sym v pad1)) st = Some st1 /\
    exec (OnComplete cmd1 (get_frame pad2)) st1 = Some st2 /\
    txBuffer st2 = status_frame (<[Z.to_nat idx := v]> (ledStates st)) /\
    txBuffer st2 !! (4 + Z.to_nat idx)%nat = Some (digit v).
Proof.
  intros Hwf Hc0 Hc1 Hp1 Hp2 Hs Hv.
  pose proof (led_frame_length sym v pad1 Hp1) as Hl1.
  pose proof (get_frame_length pad2 Hp2) as Hl2.
  destruct (step_total st (EvComplete cmd0 (led_frame sym v pad1)) Hwf
              (conj Hc0 Hl1)) as (st1 & Hs1 & _ & Hwf1).
  simpl step in Hs1.
  unfold exec in Hs1. rewrite OnComplete_effect in Hs1 by assumption.
  injection Hs1 as <-.
  unfold exec. do 2 eexists.
  split; [rewrite (OnComplete_effect st) by assumption; reflexivity|].
  split; [rewrite OnComplete_effect by assumption; reflexivity|].
  rewrite parse_get_frame.
  simpl. rewrite (parse_led_frame sym v pad1 idx Hs Hv). simpl.
  split; [reflexivity|].
  destruct Hwf as [_ _ Hleds _].
  destruct (ledStates st) as [|a [|b [|c [|d [|? ?]]]]];
    try discriminate Hleds.
  apply channel_index_cases in Hs.
  destruct Hs as [[_ ->] | [[_ ->] | [[_ ->] | [_ ->]]]]; reflexivity.
Qed.

Lemma set_then_query_witness :
  wf boot /\ length zero_frame = BUFFER_SIZE /\ length zero_frame = BUFFER_SIZE /\
  length (replicate 25 0) = 25%nat /\ length (replicate 24 0) = 24%nat /\
  channel_index (ch "O") = Some 1 /\ bit 1 /\
  exists st1 st2,
    exec (OnComplete zero_frame (led_frame (ch "O") 1 (replicate 25 0))) boot
      = Some st1 /\
    exec (OnComplete zero_frame (get_frame (replicate 24 0))) st1 = Some st2 /\
    txBuffer st2 = status_frame (<[Z.to_nat 1 := 1]> (ledStates boot)) /\
    txBuffer st2 !! (4 + Z.to_nat 1)%nat = Some (digit 1).
Proof.
  assert (H1 : wf boot) by wf_now.
  assert (H2 : length zero_frame = BUFFER_SIZE) by reflexivity.
  assert (H4 : length (replicate 25 0) = 25%nat) by reflexivity.
  assert (H5 : length (replicate 24 0) = 24%nat) by reflexivity.
  assert (H6 : channel_index (ch "O") = Some 1) by reflexivity.
  assert (H7 : bit 1) by (right; reflexivity).
  repeat (split; [assumption|]).
  exact (set_then_query boot zero_frame zero_frame (replicate 25 0)
           (replicate 24 0) (ch "O") 1 1 H1 H2 H2 H4 H5 H6 H7).
Defined.

(** ** Bytes the parser never looks at *)

(** Whatever follows the first newline or NUL of a frame has no effect. *)
Theorem bytes_after_terminator_ignored
    (st : state) (cmd0 cmd1 body rest1 rest2 : list Z) (t : Z) :
  wf st -> length cmd0 = BUFFER_SIZE -> length cmd1 = BUFFER_SIZE ->
  terminator t ->
  length (body ++ t :: rest1) = BUFFER_SIZE -> length rest2 = length rest1 ->
  exists st',
    exec (OnComplete cmd0 (body ++ t :: rest1)) st = Some st' /\
    exec (OnComplete cmd1 (body ++ t :: rest2)) st = Some st'.
Proof.
  intros Hwf Hc0 Hc1 Ht Hl1 Hr.
  assert (Hl2 : length (body ++ t :: rest2) = BUFFER_SIZE).
  { rewrite length_app in *. simpl in *. lia. }
  unfold exec. rewrite !OnComplete_effect by assumption.
  unfold token_of. rewrite !until_end_take_app by exact Ht.
  eexists. split; reflexivity.
Qed.

Lemma bytes_after_terminator_ignored_witness :
  wf boot /\ length zero_frame = BUFFER_SIZE /\ length zero_frame = BUFFER_SIZE /\
  terminator 10 /\
  length (c_chars "LED:R1" ++ 10 :: replicate 25 0) = BUFFER_SIZE /\
  length (replicate 25 (ch "G")) = length (replicate 25 0) /\
  exists st',
    exec (OnComplete zero_frame (c_chars "LED:R1" ++ 10 :: replicate 25 0)) boot
      = Some st' /\
    exec (OnComplete zero_frame (c_chars "LED:R1" ++ 10 :: replicate 25 (ch "G")))
      boot = Some st'.
Proof.
  assert (H1 : wf boot) by wf_now.
  assert (H2 : length zero_frame = BUFFER_SIZE) by reflexivity.
  assert (H3 : terminator 10) by (left; reflexivity).
  assert (H4 : length (c_chars "LED:R1" ++ 10 :: replicate 25 0) = BUFFER_SIZE)
    by reflexivity.
  assert (H5 : length (replicate 25 (ch "G")) = length (replicate 25 0))
    by reflexivity.
  repeat (split; [assumption|]).
  exact (bytes_after_terminator_ignored boot zero_frame zero_frame
           (c_chars "LED:R1") (replicate 25 0) (replicate 25 (ch "G")) 10
           H1 H2 H2 H3 H4 H5).
Defined.

(** Matching is by prefix: what follows the value byte of an LED command,
    or the seven bytes GET:LED, is not examined, newline or not. *)
Theorem bytes_after_command_ignored
    (st : state) (cmd0 tail pad tail' pad' : list Z) (sym val : Z) :
  wf st -> length cmd0 = BUFFER_SIZE ->
  length tail = 26%nat -> length pad = 25%nat ->
  length tail' = 25%nat -> length pad' = 24%nat ->
  exec (OnComplete cmd0 (c_chars "LED:" ++ sym :: val :: tail)) st =
    exec (OnComplete cmd0 (c_chars "LED:" ++ sym :: val :: 10 :: pad)) st /\
  exec (OnComplete cmd0 (c_chars "GET:LED" ++ tail')) st =
    exec (OnComplete cmd0 (get_frame pad')) st.
Proof.
  intros Hwf Hc Ht Hp Ht' Hp'.
  assert (L1 : length (c_chars "LED:" ++ sym :: val :: tail) = BUFFER_SIZE)
    by (rewrite length_app; simpl; rewrite Ht; reflexivity).
  assert (L2 : length (c_chars "LED:" ++ sym :: val :: 10 :: pad) = BUFFER_SIZE)
    by (rewrite length_app; simpl; rewrite Hp; reflexivity).
  assert (L3 : length (c_chars "GET:LED" ++ tail') = BUFFER_SIZE)
    by (rewrite length_app; simpl; rewrite Ht'; reflexivity).
  pose proof (get_frame_length pad' Hp') as L4.
  unfold exec. rewrite !OnComplete_effect by assumption.
  assert (E1 : parse (token_of (c_chars "LED:" ++ sym :: val :: tail)) =
               parse (token_of (c_chars "LED:" ++ sym :: val :: 10 :: pad))).
  { unfold token_of, BUFFER_SIZE. simpl take. simpl until_end.
    destruct ((sym =? 10) || (sym =? 0)); [reflexivity|].
    destruct ((val =? 10) || (val =? 0)); [reflexivity|].
    apply (parse_led_prefix sym val). }
  assert (E2 : parse (token_of (c_chars "GET:LED" ++ tail')) =
               parse (token_of (get_frame pad'))) by reflexivity.
  rewrite E1, E2. split; reflexivity.
Qed.

Lemma bytes_after_command_ignored_witness :
  wf boot /\ length zero_frame = BUFFER_SIZE /\
  length (replicate 26 (ch "x")) = 26%nat /\ length (replicate 25 0) = 25%nat /\
  length (replicate 25 (ch "S")) = 25%nat /\ length (replicate 24 0) = 24%nat /\
  exec (OnComplete zero_frame
          (c_chars "LED:" ++ ch "B" :: ch "1" :: replicate 26 (ch "x"))) boot =
    exec (OnComplete zero_frame
            (c_chars "LED:" ++ ch "B" :: ch "1" :: 10 :: replicate 25 0)) boot /\
  exec (OnComplete zero_frame (c_chars "GET:LED" ++ replicate 25 (ch "S"))) boot =
    exec (OnComplete zero_frame (get_frame (replicate 24 0))) boot.
Proof.
  assert (H1 : wf boot) by wf_now.
  assert (H2 : length zero_frame = BUFFER_SIZE) by reflexivity.
  assert (H3 : length (replicate 26 (ch "x")) = 26%nat) by reflexivity.
  assert (H4 : length (replicate 25 0) = 25%nat) by reflexivity.
  assert (H5 : length (replicate 25 (ch "S")) = 25%nat) by reflexivity.
  assert (H6 : length (replicate 24 0) = 24%nat) by reflexivity.
  repeat (split; [assumption|]).
  exact (bytes_after_command_ignored boot zero_frame (replicate 26 (ch "x"))
           (replicate 25 0) (replicate 25 (ch "S")) (replicate 24 0)
           (ch "B") (ch "1") H1 H2 H3 H4 H5 H6).
Defined.

(** ** Frames that are rejected *)

(** A frame whose first byte is neither L nor G is answered with ERR and
    changes nothing: matching is case-sensitive and anchored at byte 0. *)
Theorem wrong_first_byte_rejected (st : state) (cmd0 rest : list Z) (c : Z) :
  wf st -> length cmd0 = BUFFER_SIZE -> length rest = 31%nat ->
  c <> ch "L" -> c <> ch "G" ->
  exists st',
    exec (OnComplete cmd0 (c :: rest)) st = Some st' /\
    ledStates st' = ledStates st /\
    gpio_writes st' = gpio_writes st /\
    txBuffer st' = padded "ERR\n".
Proof.
  intros Hwf Hc Hr HL HG. pose proof Hwf as [Hrx Htx Hleds Hbits].
  assert (Hp : parse (token_of (c :: rest)) = Unrecognized).
  { unfold token_of, BUFFER_SIZE. simpl take. simpl until_end.
    destruct ((c =? 10) || (c =? 0)); [reflexivity|].
    unfold parse. simpl.
    apply Z.eqb_neq in HL, HG. rewrite HL, HG. reflexivity. }
  unfold exec. rewrite OnComplete_unrecognized;
    [|assumption | simpl; rewrite Hr; reflexivity | assumption | exact Hp].
  eexists. repeat split; reflexivity.
Qed.

Lemma wrong_first_byte_rejected_witness :
  wf after_SetLED_200 /\ length zero_frame = BUFFER_SIZE /\
  length (c_chars "ed:g1\n" ++ replicate 25 0) = 31%nat /\
  ch "l" <> ch "L" /\ ch "l" <> ch "G" /\
  exists st',
    exec (OnComplete zero_frame (ch "l" :: c_chars "ed:g1\n" ++ replicate 25 0))
      after_SetLED_200 = Some st' /\
    ledStates st' = ledStates after_SetLED_200 /\
    gpio_writes st' = gpio_writes after_SetLED_200 /\
    txBuffer st' = padded "ERR\n".
Proof.
  assert (H1 : wf after_SetLED_200) by wf_now.
  assert (H2 : length zero_frame = BUFFER_SIZE) by reflexivity.
  assert (H3 : length (c_chars "ed:g1\n" ++ replicate 25 0) = 31%nat)
    by reflexivity.
  assert (H4 : ch "l" <> ch "L") by discriminate.
  assert (H5 : ch "l" <> ch "G") by discriminate.
  repeat (split; [assumption|]).
  exact (wrong_first_byte_rejected after_SetLED_200 zero_frame
           (c_chars "ed:g1\n" ++ replicate 25 0) (ch "l") H1 H2 H3 H4 H5).
Defined.

(** A newline or NUL among the first six bytes cuts the command short: the
    frame is answered with ERR and changes nothing, also when the value byte
    is read from behind the terminator. *)
Theorem early_terminator_rejected
    (st : state) (cmd0 inbound : list Z) (k : nat) (t : Z) :
  wf st -> length cmd0 = BUFFER_SIZE -> length inbound = BUFFER_SIZE ->
  (k < 6)%nat -> inbound !! k = Some t -> terminator t ->
  exists st',
    exec (OnComplete cmd0 inbound) st = Some st' /\
    ledStates st' = ledStates st /\
    gpio_writes st' = gpio_writes st /\
    txBuffer st' = padded "ERR\n".
Proof.
  intros Hwf Hc Hin Hk Ht Hterm. pose proof Hwf as [Hrx Htx Hleds Hbits].
  assert (Hp : parse (token_of inbound) = Unrecognized).
  { apply parse_short. unfold token_of.
    assert (Hle : (length (until_end (take (BUFFER_SIZE - 1) inbound)) <= k)%nat).
    { apply (until_end_before _ k t); [|exact Hterm].
      rewrite lookup_take_lt by (unfold BUFFER_SIZE; lia). exact Ht. }
    lia. }
  unfold exec. rewrite OnComplete_unrecognized by assumption.
  eexists. repeat split; reflexivity.
Qed.

Lemma early_terminator_rejected_witness :
  wf boot /\ length (replicate BUFFER_SIZE (ch "1")) = BUFFER_SIZE /\
  length (padded "LED:\n") = BUFFER_SIZE /\
  (4 < 6)%nat /\ padded "LED:\n" !! 4%nat = Some 10 /\ terminator 10 /\
  exists st',
    exec (OnComplete (replicate BUFFER_SIZE (ch "1")) (padded "LED:\n")) boot
      = Some st' /\
    ledStates st' = ledStates boot /\
    gpio_writes st' = gpio_writes boot /\
    txBuffer st' = padded "ERR\n".
Proof.
  assert (H1 : wf boot) by wf_now.
  assert (H2 : length (replicate BUFFER_SIZE (ch "1")) = BUFFER_SIZE)
    by reflexivity.
  assert (H3 : length (padded "LED:\n") = BUFFER_SIZE) by reflexivity.
  assert (H4 : (4 < 6)%nat) by lia.
  assert (H5 : padded "LED:\n" !! 4%nat = Some 10) by reflexivity.
  assert (H6 : terminator 10) by (left; reflexivity).
  repeat (split; [assumption|]).
  exact (early_terminator_rejected boot (replicate BUFFER_SIZE (ch "1"))
           (padded "LED:\n") 4 10 H1 H2 H3 H4 H5 H6).
Defined.

(** ** The token *)

(** The bytes copied into [cmd] are the longest prefix of the frame without
    newline and NUL, cut at 31 bytes; behind the terminator [cmd] keeps what
    it held. *)
Theorem token_is_longest_clean_prefix (frame cmd0 : list Z) :
  length frame = BUFFER_SIZE -> length cmd0 = BUFFER_SIZE ->
  exists cmd n,
    extract_token frame cmd0 = Some (cmd, n) /\
    take n cmd = take n frame /\
    Forall (fun c => c <> 10 /\ c <> 0) (take n frame) /\
    (n = 31%nat \/ exists t, frame !! n = Some t /\ terminator t) /\
    drop (S n) cmd = drop (S n) cmd0.
Proof.
  intros Hf Hc. pose proof (token_of_length frame) as Hlen.
  assert (Hpre : token_of frame = take (length (token_of frame)) frame).
  { unfold token_of at 1. rewrite until_end_prefix.
    fold (token_of frame). rewrite take_take.
    f_equal. unfold BUFFER_SIZE in *. lia. }
  do 2 eexists. split; [apply extract_token_spec; assumption|].
  split; [rewrite take_app_length; exact Hpre|].
  split; [rewrite <- Hpre; apply until_end_clean|].
  split.
  - unfold token_of in *.
    destruct (until_end_stop (take (BUFFER_SIZE - 1) frame)) as [E | (t & Ht & Hterm)].
    + left. rewrite E, length_take, Hf. reflexivity.
    + right. exists t. split; [|exact Hterm].
      apply lookup_take_Some in Ht. apply Ht.
  - rewrite cons_middle, app_assoc.
    apply drop_app_length'. rewrite length_app. simpl. lia.
Qed.

Lemma token_is_longest_clean_prefix_witness :
  length (padded "GET:LED\n") = BUFFER_SIZE /\
  length (replicate BUFFER_SIZE (ch "1")) = BUFFER_SIZE /\
  exists cmd n,
    extract_token (padded "GET:LED\n") (replicate BUFFER_SIZE (ch "1"))
      = Some (cmd, n) /\
    take n cmd = take n (padded "GET:LED\n") /\
    Forall (fun c => c <> 10 /\ c <> 0) (take n (padded "GET:LED\n")) /\
    (n = 31%nat \/ exists t, padded "GET:LED\n" !! n = Some t /\ terminator t) /\
    drop (S n) cmd = drop (S n) (replicate BUFFER_SIZE (ch "1")).
Proof.
  assert (H1 : length (padded "GET:LED\n") = BUFFER_SIZE) by reflexivity.
  assert (H2 : length (replicate BUFFER_SIZE (ch "1")) = BUFFER_SIZE)
    by reflexivity.
  repeat (split; [assumption|]).
  exact (token_is_longest_clean_prefix (padded "GET:LED\n")
           (replicate BUFFER_SIZE (ch "1")) H1 H2).
Defined.

(** ** Polling *)

(** A poll processes a command only when the select line is low and the
    blocking exchange succeeds.  Otherwise it returns with cells, pins,
    outbound buffer and exchange as they were, and with the select line high
    with the whole state untouched. *)
Theorem poll_without_exchange (st : state) (env : poll_env) :
  wf st ->
  nss_pin env = GPIO_PIN_SET \/ xfer_status env <> HAL_OK ->
  exists st',
    exec (SPI_Slave_Poll env) st = Some st' /\
    txBuffer st' = txBuffer st /\
    ledStates st' = ledStates st /\
    gpio_writes st' = gpio_writes st /\
    spi_armed st' = spi_armed st /\
    (nss_pin env = GPIO_PIN_SET -> st' = st).
Proof.
  intros [Hrx Htx _ _] Hcase. unfold exec, SPI_Slave_Poll.
  destruct (nss_pin env) eqn:Hnss.
  - destruct Hcase as [Hc | Hst]; [discriminate|].
    unfold bind, get, lift, modify, HAL_SPI_TransmitReceive, ret.
    rewrite memset_full by exact Hrx.
    destruct (xfer_status env); [contradiction| | |];
      (eexists; split; [reflexivity|]; repeat split; try reflexivity;
       discriminate).
  - exists st. repeat split; reflexivity.
Qed.

Lemma poll_without_exchange_witness :
  let env := {| nss_pin := GPIO_PIN_RESET; xfer_status := HAL_TIMEOUT;
                xfer_data := c_chars "LED:" ++ replicate 28 0;
                stack_response := zero_frame; stack_cmd := zero_frame |} in
  wf after_SetLED_200 /\
  (nss_pin env = GPIO_PIN_SET \/ xfer_status env <> HAL_OK) /\
  exists st',
    exec (SPI_Slave_Poll env) after_SetLED_200 = Some st' /\
    txBuffer st' = txBuffer after_SetLED_200 /\
    ledStates st' = ledStates after_SetLED_200 /\
    gpio_writes st' = gpio_writes after_SetLED_200 /\
    spi_armed st' = spi_armed after_SetLED_200 /\
    (nss_pin env = GPIO_PIN_SET -> st' = after_SetLED_200).
Proof.
  intros env.
  assert (H1 : wf after_SetLED_200) by wf_now.
  assert (H2 : nss_pin env = GPIO_PIN_SET \/ xfer_status env <> HAL_OK)
    by (right; discriminate).
  split; [exact H1|]. split; [exact H2|].
  exact (poll_without_exchange after_SetLED_200 env H1 H2).
Defined.

Lemma Poll_recognized_witness :
  let env := poll_of (padded "GET:LED\n") (replicate BUFFER_SIZE (ch "U")) in
  wf after_SetLED_200 /\ op_ok (OpPoll env) /\ length zero_frame = BUFFER_SIZE /\
  nss_pin env = GPIO_PIN_RESET /\ xfer_status env = HAL_OK /\
  matches_grammar (token_of (xfer_data env)) = true /\
  exists st1 st2,
    exec (SPI_Slave_Poll env) after_SetLED_200 = Some st1 /\
    exec (OnComplete zero_frame (xfer_data env)) after_SetLED_200 = Some st2 /\
    ledStates st1 = ledStates st2 /\
    gpio_writes st1 = gpio_writes st2 /\
    txBuffer st1 = txBuffer st2.
Proof.
  intros env.
  assert (H1 : wf after_SetLED_200) by wf_now.
  assert (H2 : op_ok (OpPoll env)) by (repeat split; reflexivity).
  assert (H3 : length zero_frame = BUFFER_SIZE) by reflexivity.
  assert (H4 : nss_pin env = GPIO_PIN_RESET) by reflexivity.
  assert (H5 : xfer_status env = HAL_OK) by reflexivity.
  assert (H6 : matches_grammar (token_of (xfer_data env)) = true) by reflexivity.
  repeat (split; [assumption|]).
  exact (Poll_recognized after_SetLED_200 env zero_frame H1 H2 H3 H4 H5 H6).
Defined.

(** ** The state store through the public API *)

(** SetLED on a valid index stores 0 for a zero state byte and 1 for any
    other, which GetLED then returns; it drives the pin of that index
    accordingly, leaves the other cells alone, and touches neither buffer
    nor the armed exchange. *)
Theorem set_get_round_trip (st : state) (index state : Z) :
  wf st -> 0 <= index < 4 ->
  exists st',
    exec (SPI_Slave_SetLED index state) st = Some st' /\
    SPI_Slave_GetLED index st' = Some (if state =? 0 then 0 else 1, st') /\
    (forall k : nat, k <> Z.to_nat index ->
       ledStates st' !! k = ledStates st !! k) /\
    gpio_writes st' =
      gpio_writes st ++
      [(led_pin index, if state =? 0 then GPIO_PIN_RESET else GPIO_PIN_SET)] /\
    rxBuffer st' = rxBuffer st /\ txBuffer st' = txBuffer st /\
    spi_armed st' = spi_armed st.
Proof.
  intros [Hrx Htx Hleds Hbits] Hi.
  unfold exec, SPI_Slave_SetLED. rewrite LED_SetState_valid by assumption.
  eexists. split; [reflexivity|].
  assert (Hv : led_value state = if state =? 0 then 0 else 1).
  { unfold led_value, truthy. destruct (state =? 0); reflexivity. }
  assert (Hp : pin_state state = if state =? 0 then GPIO_PIN_RESET else GPIO_PIN_SET).
  { unfold pin_state, truthy. destruct (state =? 0); reflexivity. }
  rewrite Hv, Hp. split; [|split; [|repeat split]].
  - match goal with |- SPI_Slave_GetLED _ ?s = _ =>
      destruct (GetLED_valid s index) as (v & Hg & Hl);
        [exact Hi | simpl; rewrite length_insert; exact Hleds |]
    end.
    simpl in Hl. rewrite list_lookup_insert_eq in Hl by lia.
    injection Hl as <-. exact Hg.
  - intros k Hk. simpl. apply list_lookup_insert_ne. auto.
Qed.

Lemma set_get_round_trip_witness :
  wf boot /\ 0 <= 3 < 4 /\
  exists st',
    exec (SPI_Slave_SetLED 3 255) boot = Some st' /\
    SPI_Slave_GetLED 3 st' = Some (if 255 =? 0 then 0 else 1, st') /\
    (forall k : nat, k <> Z.to_nat 3 ->
       ledStates st' !! k = ledStates boot !! k) /\
    gpio_writes st' =
      gpio_writes boot ++
      [(led_pin 3, if 255 =? 0 then GPIO_PIN_RESET else GPIO_PIN_SET)] /\
    rxBuffer st' = rxBuffer boot /\ txBuffer st' = txBuffer boot /\
    spi_armed st' = spi_armed boot.
Proof.
  assert (H1 : wf boot) by wf_now.
  assert (H2 : 0 <= 3 < 4) by lia.
  split; [exact H1|]. split; [exact H2|].
  exact (set_get_round_trip boot 3 255 H1 H2).
Defined.

(** ** Histories that stay inside the arrays *)

Section Histories.
Implicit Types (st : state) (o : op) (env : poll_env) (src dst : list Z).

(** A copy that meets a NUL before the end of the destination returns. *)
Lemma strcpy_at_total src : forall dst (i k : nat),
  src !! k = Some 0 -> (i + k < length dst)%nat ->
  exists dst', strcpy_at dst i src = Some dst'.
Proof.
  induction src as [|c src IH]; intros dst i k Hk Hlen; [discriminate|].
  simpl. rewrite store_Some by lia.
  destruct (Z.eqb_spec c 0) as [->|Hc]; [eauto|].
  destruct k as [|k]; [injection Hk as ->; contradiction|].
  apply (IH _ (S i) k); [exact Hk | rewrite length_insert; lia].
Qed.

(** A copy from an array without NUL runs off an array. *)
Lemma strcpy_at_unterminated src : forall dst (i : nat),
  Forall (fun c => c <> 0) src -> strcpy_at dst i src = None.
Proof.
  induction src as [|c src IH]; intros dst i Hs; [reflexivity|].
  inversion Hs as [|? ? Hc Hs']; subst. simpl.
  destruct (store dst i c); [|reflexivity].
  destruct (Z.eqb_spec c 0); [contradiction | apply IH, Hs'].
Qed.

(** The reply to a command of the grammar is terminated. *)
Lemma response_of_terminated c (leds response : list Z) :
  length leds = 4%nat -> c <> Unrecognized ->
  exists k : nat, (k < 10)%nat /\ response_of c leds response !! k = Some 0.
Proof.
  intros Hl Hc. destruct c as [i b|b| |]; try contradiction.
  - exists 3%nat. split; [lia | reflexivity].
  - exists 3%nat. split; [lia | reflexivity].
  - destruct leds as [|x [|y [|z [|w [|? ?]]]]]; try discriminate Hl.
    exists 9%nat. split; [lia | reflexivity].
Qed.

(** A poll after a successful exchange returns when the reply is
    terminated, with the command applied; the received frame stays in
    [rxBuffer] and the exchange is as it was. *)
Lemma Poll_effect st env :
  wf st -> op_ok (OpPoll env) ->
  nss_pin env = GPIO_PIN_RESET -> xfer_status env = HAL_OK ->
  matches_grammar (token_of (xfer_data env)) = true \/
    (exists k : nat, stack_response env !! k = Some 0) ->
  exists st',
    exec (SPI_Slave_Poll env) st = Some st' /\
    ledStates st' = leds_after (parse (token_of (xfer_data env))) (ledStates st) /\
    gpio_writes st' =
      gpio_writes st ++ writes_of (parse (token_of (xfer_data env))) /\
    rxBuffer st' = xfer_data env /\
    spi_armed st' = spi_armed st.
Proof.
  intros Hwf (Hdata & Hresp & Hcmd) Hnss Hst Hterm.
  pose proof Hwf as [Hrx Htx Hleds Hbits].
  unfold exec. rewrite Poll_run by assumption.
  rewrite apply_command_spec;
    [|split; assumption | assumption | apply parse_valid].
  simpl ledStates.
  assert (Hnul : exists k : nat,
            (k < BUFFER_SIZE)%nat /\
            response_of (parse (token_of (xfer_data env))) (ledStates st)
              (stack_response env) !! k = Some 0).
  { unfold matches_grammar in Hterm.
    destruct (parse (token_of (xfer_data env))) as [i b|b| |] eqn:Hp.
    - destruct (response_of_terminated (SetChannel i b) (ledStates st)
                  (stack_response env) Hleds) as (k & Hk & Hz); [discriminate|].
      exists k. split; [unfold BUFFER_SIZE; lia | exact Hz].
    - destruct (response_of_terminated (SetAll b) (ledStates st)
                  (stack_response env) Hleds) as (k & Hk & Hz); [discriminate|].
      exists k. split; [unfold BUFFER_SIZE; lia | exact Hz].
    - destruct (response_of_terminated Query (ledStates st)
                  (stack_response env) Hleds) as (k & Hk & Hz); [discriminate|].
      exists k. split; [unfold BUFFER_SIZE; lia | exact Hz].
    - destruct Hterm as [Hm | (k & Hz)]; [discriminate|].
      exists k. split; [|exact Hz].
      apply lookup_lt_Some in Hz. simpl. lia. }
  destruct Hnul as (k & Hk & Hz).
  destruct (strcpy_at_total _ zero_frame 0 k Hz) as (tx & Htxc); [exact Hk|].
  unfold strcpy. rewrite Htxc.
  eexists. split; [reflexivity|]. repeat split; reflexivity.
Qed.

(** Every call whose precondition holds returns. *)
Lemma do_op_total st o :
  wf st -> op_pre o -> exists st', exec (do_op o) st = Some st'.
Proof.
  intros Hwf [Hok Hpre]. destruct o as [e|env|index state|index]; simpl do_op.
  - destruct (step_total st e Hwf Hok) as (st' & Hs & _). eauto.
  - destruct Hpre as [Hhigh | [Hfail | Hterm]].
    + exists st. unfold exec, SPI_Slave_Poll. rewrite Hhigh. reflexivity.
    + destruct (nss_pin env) eqn:Hnss.
      * destruct Hwf as [Hrx _ _ _]. unfold exec, SPI_Slave_Poll. rewrite Hnss.
        unfold bind, get, lift, modify, HAL_SPI_TransmitReceive, ret.
        rewrite memset_full by exact Hrx.
        destruct (xfer_status env); [contradiction| | |]; eauto.
      * exists st. unfold exec, SPI_Slave_Poll. rewrite Hnss. reflexivity.
    + destruct (nss_pin env) eqn:Hnss.
      * destruct (xfer_status env) eqn:Hst.
        -- destruct (Poll_effect st env Hwf Hok Hnss Hst Hterm) as (st' & Hs & _).
           eauto.
        -- destruct Hwf as [Hrx _ _ _]. unfold exec, SPI_Slave_Poll. rewrite Hnss.
           unfold bind, get, lift, modify, HAL_SPI_TransmitReceive, ret.
           rewrite memset_full by exact Hrx. rewrite Hst. eauto.
        -- destruct Hwf as [Hrx _ _ _]. unfold exec, SPI_Slave_Poll. rewrite Hnss.
           unfold bind, get, lift, modify, HAL_SPI_TransmitReceive, ret.
           rewrite memset_full by exact Hrx. rewrite Hst. eauto.
        -- destruct Hwf as [Hrx _ _ _]. unfold exec, SPI_Slave_Poll. rewrite Hnss.
           unfold bind, get, lift, modify, HAL_SPI_TransmitReceive, ret.
           rewrite memset_full by exact Hrx. rewrite Hst. eauto.
      * exists st. unfold exec, SPI_Slave_Poll. rewrite Hnss. reflexivity.
  - destruct Hok as [[Hlo _] _]. unfold exec, SPI_Slave_SetLED.
    destruct (Z.le_gt_cases 4 index) as [Hi | Hi].
    + rewrite LED_SetState_invalid by exact Hi. eauto.
    + rewrite LED_SetState_valid by (try apply Hwf; lia). eauto.
  - destruct Hok as [Hlo _]. unfold exec, bind.
    destruct (Z.le_gt_cases 4 index) as [Hi | Hi].
    + rewrite GetLED_invalid by exact Hi. eauto.
    + destruct (GetLED_valid st index) as (v & -> & _); [lia | apply Hwf |].
      eauto.
Qed.

(** Along such a history the invariant holds and the cells follow the
    pins. *)
Lemma run_ops_total os : forall st,
  wf st -> mirrors (ledStates st) (gpio_writes st) -> Forall op_pre os ->
  exists st', run_ops os st = Some st' /\ wf st' /\
              mirrors (ledStates st') (gpio_writes st').
Proof.
  induction os as [|o os IH]; intros st Hwf Hm Hos; simpl.
  - exists st. auto.
  - inversion Hos as [|? ? Ho Hos']; subst.
    destruct (do_op_total st o Hwf Ho) as (st1 & Hs).
    rewrite Hs.
    pose proof (do_op_wf st o st1 Hwf (proj1 Ho) Hs) as Hwf1.
    destruct (do_op_effect st o st1 Hwf (proj1 Ho) Hs) as (c & Hc & El & Eg).
    apply (IH st1 Hwf1); [|exact Hos'].
    rewrite El, Eg. apply mirrors_after; assumption.
Qed.

Lemma mirrors_boot : mirrors (ledStates boot) (gpio_writes boot).
Proof. reflexivity. Qed.
End Histories.

(** A poll whose exchange succeeds, on a frame that is a command of the
    grammar or with a NUL in the stack slot of [response], returns with the
    command of the frame applied to cells and pins; unlike the completion
    callback it leaves the received frame in the inbound buffer and starts
    no exchange. *)
Theorem poll_applies_command (st : state) (env : poll_env) :
  wf st -> op_ok (OpPoll env) ->
  nss_pin env = GPIO_PIN_RESET -> xfer_status env = HAL_OK ->
  matches_grammar (token_of (xfer_data env)) = true \/
    (exists k : nat, stack_response env !! k = Some 0) ->
  exists st',
    exec (SPI_Slave_Poll env) st = Some st' /\
    ledStates st' = leds_after (parse (token_of (xfer_data env))) (ledStates st) /\
    gpio_writes st' =
      gpio_writes st ++ writes_of (parse (token_of (xfer_data env))) /\
    rxBuffer st' = xfer_data env /\
    spi_armed st' = spi_armed st.
Proof. intros Hwf Hok Hnss Hst Hterm. apply Poll_effect; assumption. Qed.

Lemma poll_applies_command_witness :
  let env := poll_of (padded "LED:A1\n") (replicate BUFFER_SIZE (ch "U")) in
  wf boot /\ op_ok (OpPoll env) /\
  nss_pin env = GPIO_PIN_RESET /\ xfer_status env = HAL_OK /\
  (matches_grammar (token_of (xfer_data env)) = true \/
   (exists k : nat, stack_response env !! k = Some 0)) /\
  exists st',
    exec (SPI_Slave_Poll env) boot = Some st' /\
    ledStates st' = leds_after (parse (token_of (xfer_data env))) (ledStates boot) /\
    gpio_writes st' =
      gpio_writes boot ++ writes_of (parse (token_of (xfer_data env))) /\
    rxBuffer st' = xfer_data env /\
    spi_armed st' = spi_armed boot.
Proof.
  intros env.
  assert (H1 : wf boot) by wf_now.
  assert (H2 : op_ok (OpPoll env)) by (repeat split; reflexivity).
  assert (H3 : nss_pin env = GPIO_PIN_RESET) by reflexivity.
  assert (H4 : xfer_status env = HAL_OK) by reflexivity.
  assert (H5 : matches_grammar (token_of (xfer_data env)) = true \/
               (exists k : nat, stack_response env !! k = Some 0))
    by (left; reflexivity).
  repeat (split; [assumption|]).
  exact (poll_applies_command boot env H1 H2 H3 H4 H5).
Defined.

(** ** Pins and cells agree *)

(** A history used below: a cell set through the API with the byte 200, a
    poll that meets the rejected frame FOO with a NUL on the stack, a
    completed exchange and a fault. *)
Lemma sample_history_pre :
  Forall op_pre
    [OpSetLED 2 200;
     OpPoll (poll_of (padded "FOO\n") zero_frame);
     OpEvent (EvComplete zero_frame (padded "LED:G1\n"));
     OpEvent EvFault].
Proof.
  constructor; [|constructor; [|constructor; [|constructor; [|constructor]]]].
  - split; [unfold op_ok, is_u8; lia | exact I].
  - split; [repeat split; reflexivity|].
    right. right. right. exists 0%nat. reflexivity.
  - split; [split; reflexivity | exact I].
  - split; exact I.
Qed.

(** From reset, along every history of calls that meet their
    preconditions (for a poll: it processes nothing, or its frame is a
    command, or the stack slot of [response] holds a NUL), every call
    returns and each cell is the level its LED pin was last driven to, low
    while the pin has not been written: GetLED reports what the LED shows. *)
Theorem cells_mirror_pins (os : list op) :
  Forall op_pre os ->
  exists st,
    run_ops os boot = Some st /\
    mirrors (ledStates st) (gpio_writes st) /\
    (forall index, 0 <= index < 4 ->
       SPI_Slave_GetLED index st =
         Some (level_value (pin_level (gpio_writes st) (led_pin index)), st)).
Proof.
  intros Hos.
  destruct (run_ops_total os boot wf_boot mirrors_boot Hos) as (st & Hr & Hwf & Hm).
  exists st. split; [exact Hr|]. split; [exact Hm|].
  intros index Hi.
  destruct (GetLED_valid st index Hi) as (v & Hg & Hl); [apply Hwf|].
  rewrite Hg. f_equal. f_equal.
  unfold mirrors, led_pins in Hm. rewrite Hm in Hl.
  assert (index = 0 \/ index = 1 \/ index = 2 \/ index = 3) as Hcase by lia.
  destruct Hcase as [-> | [-> | [-> | ->]]]; simpl in Hl;
    injection Hl as <-; reflexivity.
Qed.

Lemma cells_mirror_pins_witness :
  let os := [OpSetLED 2 200;
             OpPoll (poll_of (padded "FOO\n") zero_frame);
             OpEvent (EvComplete zero_frame (padded "LED:G1\n"));
             OpEvent EvFault] in
  Forall op_pre os /\
  exists st,
    run_ops os boot = Some st /\
    mirrors (ledStates st) (gpio_writes st) /\
    (forall index, 0 <= index < 4 ->
       SPI_Slave_GetLED index st =
         Some (level_value (pin_level (gpio_writes st) (led_pin index)), st)).
Proof.
  intros os.
  assert (H1 : Forall op_pre os) by exact sample_history_pre.
  split; [exact H1|].
  exact (cells_mirror_pins os H1).
Defined.

(** From reset, along every history of calls that meet their
    preconditions, every call returns and each of the four cells holds 0 or
    1: GetLED returns 0 or 1 for every index, the four digits of a status
    line are the characters 0 or 1, and SetLED with any nonzero state byte
    on a valid index stores 1. *)
Theorem cells_stay_bits (os : list op) :
  Forall op_pre os ->
  exists st,
    run_ops os boot = Some st /\
    length (ledStates st) = 4%nat /\
    Forall bit (ledStates st) /\
    (forall index, is_u8 index ->
       exists v, SPI_Slave_GetLED index st = Some (v, st) /\ bit v) /\
    (exists ds,
       status_text (ledStates st) = Some (c_chars "STA:" ++ ds ++ c_chars "\n") /\
       length ds = 4%nat /\
       Forall (fun x => x = ch "0" \/ x = ch "1") ds) /\
    (forall index state, 0 <= index < 4 -> is_u8 state -> state <> 0 ->
       exists st', exec (SPI_Slave_SetLED index state) st = Some st' /\
                   SPI_Slave_GetLED index st' = Some (1, st')).
Proof.
  intros Hos.
  destruct (run_ops_total os boot wf_boot mirrors_boot Hos) as (st & Hr & Hwf & _).
  destruct Hwf as [Hrx Htx Hleds Hbits].
  exists st. split; [exact Hr|].
  split; [exact Hleds|]. split; [exact Hbits|]. split; [|split].
  - intros index [Hlo Hhi].
    destruct (Z.le_gt_cases 4 index) as [Hi | Hi].
    + exists 0. split; [apply GetLED_invalid, Hi | left; reflexivity].
    + destruct (GetLED_valid st index) as (v & Hg & Hv); [lia | exact Hleds |].
      exists v. split; [exact Hg|].
      eapply Forall_lookup_1; eassumption.
  - exists (map digit (ledStates st)).
    split; [apply status_text_bits; assumption|].
    split; [rewrite length_map; exact Hleds|].
    apply Forall_map. eapply Forall_impl; [|exact Hbits].
    intros v [-> | ->]; [left | right]; reflexivity.
  - intros index state Hi Hu Hnz.
    unfold exec, SPI_Slave_SetLED.
    rewrite LED_SetState_valid by assumption.
    eexists. split; [reflexivity|].
    match goal with |- SPI_Slave_GetLED _ ?s = _ =>
      destruct (GetLED_valid s index) as (v & Hg & Hv);
        [exact Hi | simpl; rewrite length_insert; exact Hleds |]
    end.
    simpl in Hv. rewrite list_lookup_insert_eq in Hv by lia.
    injection Hv as <-.
    assert (Hone : led_value state = 1).
    { unfold led_value, truthy.
      destruct (Z.eqb_spec state 0); [contradiction | reflexivity]. }
    rewrite Hone in Hg at 2. exact Hg.
Qed.

Lemma cells_stay_bits_witness :
  let os := [OpSetLED 2 200;
             OpPoll (poll_of (padded "FOO\n") zero_frame);
             OpEvent (EvComplete zero_frame (padded "LED:G1\n"));
             OpEvent EvFault] in
  Forall op_pre os /\
  exists st,
    run_ops os boot = Some st /\
    length (ledStates st) = 4%nat /\
    Forall bit (ledStates st) /\
    (forall index, is_u8 index ->
       exists v, SPI_Slave_GetLED index st = Some (v, st) /\ bit v) /\
    (exists ds,
       status_text (ledStates st) = Some (c_chars "STA:" ++ ds ++ c_chars "\n") /\
       length ds = 4%nat /\
       Forall (fun x => x = ch "0" \/ x = ch "1") ds) /\
    (forall index state, 0 <= index < 4 -> is_u8 state -> state <> 0 ->
       exists st', exec (SPI_Slave_SetLED index state) st = Some st' /\
                   SPI_Slave_GetLED index st' = Some (1, st')).
Proof.
  intros os.
  assert (H1 : Forall op_pre os) by exact sample_history_pre.
  split; [exact H1|].
  exact (cells_stay_bits os H1).
Defined.
